(** * Toxicity screening pipeline: tokenizer, classifier, batch analyzer

    A shallow embedding of the text-to-score pipeline of the repository:
    - [model/model.js]  ([loadAndPredict], [tokenize]),
    - [App.tsx]         ([loadModel], [checkToxicityFallback],
                         [checkToxicityWithModel]),
    - [components/YouTubeComments.tsx]
                        ([checkToxicityFallback], [checkToxicityWithModel],
                         [loadComments]),
    and of what surrounds it: [handleSubmit] of [App.tsx], the filter and
    the counter of the comments page, and [extractVideoId] and
    [fetchYouTubeComments] of [services/youtube.ts].

    Conventions.
    - A JavaScript string is a sequence of UTF-16 code units.  The embedding
      covers the strings whose code units are below 256 (Latin-1): a text is
      a [string], and an [ascii] is read as the code unit of the same number.
      On that range [toLowerCase], the regular expression classes [\w] and
      [\s], [split] and [includes] are modelled exactly.
    - A JavaScript number is an IEEE 754 binary64 value: a primitive [float].
    - [dictionary.js] is data: its three control tokens and its lookup table
      are parameters of the tokenizer.  [Tokenizer] reads the table as a
      finite map from words to integers, where a word that is not a key
      reads [undefined]; [PlainObject] reads it as the property read that
      [DICTIONARY.LOOKUP[word]] is, which also answers the properties of
      [Object.prototype].  The two agree on every word that names no such
      property.
    - TensorFlow.js is an external library; what it answers (the outcome of
      [tf.loadLayersModel], of [model.predict], of [tf.ready]) is a parameter,
      and its tensor bookkeeping is a counter of live tensors. *)

From Stdlib Require Import Floats Ascii String NArith ZArith.
From stdpp Require Import gmap strings list.

Local Open Scope string_scope.
Local Open Scope list_scope.
Local Open Scope nat_scope.

(** ** JavaScript strings *)

Module JsString.

Definition code (c : ascii) : N := N_of_ascii c.

Definition in_range (lo hi : N) (c : ascii) : bool :=
  ((lo <=? code c) && (code c <=? hi))%N.

(** [String.prototype.toLowerCase] on one Latin-1 code unit: [A-Z] and the
    capital letters of U+00C0..U+00DE (all but the multiplication sign
    U+00D7) move up by 32. *)
Definition lower_char (c : ascii) : ascii :=
  if in_range 65 90 c || (in_range 192 222 c && negb (code c =? 215)%N)
  then ascii_of_N (code c + 32)
  else c.

Fixpoint map_chars (f : ascii → ascii) (s : string) : string :=
  match s with
  | EmptyString => EmptyString
  | String c r => String (f c) (map_chars f r)
  end.

Definition toLowerCase (s : string) : string := map_chars lower_char s.

Definition is_digit (c : ascii) : bool := in_range 48 57 c.
Definition is_letter (c : ascii) : bool := in_range 65 90 c || in_range 97 122 c.
Definition is_alnum (c : ascii) : bool := is_letter c || is_digit c.

(** The class [\w] = [[A-Za-z0-9_]]. *)
Definition is_word_char (c : ascii) : bool := is_alnum c || (code c =? 95)%N.

(** The class [\s] below U+0100: TAB, LF, VT, FF, CR, SPACE, NBSP. *)
Definition is_space_char (c : ascii) : bool :=
  in_range 9 13 c || (code c =? 32)%N || (code c =? 160)%N.

Definition space : ascii := " "%char.

(** [s.replace(/[^\w\s]/g, ' ')] *)
Definition blank_char (c : ascii) : ascii :=
  if is_word_char c || is_space_char c then c else space.

Definition replace_non_word (s : string) : string := map_chars blank_char s.

(** [s.split(sep)] for a one-character separator: the pieces between the
    occurrences of [sep], empty pieces included; never the empty array. *)
Fixpoint split (sep : ascii) (s : string) : list string :=
  match s with
  | EmptyString => [EmptyString]
  | String c r =>
      if Ascii.eqb c sep then EmptyString :: split sep r
      else match split sep r with
           | w :: ws => String c w :: ws
           | [] => [String c EmptyString]
           end
  end.

(** [s.startsWith(w)] *)
Fixpoint startsWith (s w : string) {struct w} : bool :=
  match w, s with
  | EmptyString, _ => true
  | String _ _, EmptyString => false
  | String a w', String b s' => Ascii.eqb a b && startsWith s' w'
  end.

(** [s.includes(w)] *)
Fixpoint includes (s w : string) : bool :=
  startsWith s w ||
  match s with
  | EmptyString => false
  | String _ s' => includes s' w
  end.


Fixpoint chars (s : string) : list ascii :=
  match s with
  | EmptyString => []
  | String c r => c :: chars r
  end.

End JsString.

(** ** model.js: the tokenizer *)

Module Tokenizer.
Import JsString.

Definition ENCODING_LENGTH : nat := 21.

(** [inputText.toLowerCase().replace(/[^\w\s]/g, ' ')] *)
Definition normalize (inputText : string) : string :=
  replace_non_word (toLowerCase inputText).

(** [lowercaseSentenceArray] as first assigned in [loadAndPredict]. *)
Definition words (inputText : string) : list string :=
  split space (normalize inputText).

(** [lowercaseSentenceArray.slice(0, 20)] *)
Definition first_words (inputText : string) : list string :=
  take 20 (words inputText).

(** The exports of [dictionary.js]: three control tokens and the table
    from word to token id (a plain object used as a map). *)
Record Dictionary := {
  START : Z;
  UNKNOWN : Z;
  PAD : Z;
  LOOKUP : gmap string Z
}.

Section WithDictionary.
Variable DICTIONARY : Dictionary.

(** [encoding === undefined ? DICTIONARY.UNKNOWN : encoding], for a word
    that names no property of [Object.prototype]: the read of such a word
    is the own property or [undefined].  [PlainObject.token] is the read
    for every word. *)
Definition token (word : string) : Z :=
  match DICTIONARY.(LOOKUP) !! word with
  | Some encoding => encoding
  | None => DICTIONARY.(UNKNOWN)
  end.

(** The [for] loop of [tokenize]: one push per word, in order. *)
Fixpoint push_words (returnArray : list Z) (wordArray : list string) : list Z :=
  match wordArray with
  | [] => returnArray
  | w :: rest => push_words (returnArray ++ [token w]) rest
  end.

(** The [while] loop of [tokenize]; [fuel] bounds the iterations. *)
Fixpoint pad_loop (fuel : nat) (returnArray : list Z) : list Z :=
  match fuel with
  | O => returnArray
  | S fuel' =>
      if (length returnArray <? ENCODING_LENGTH)%nat
      then pad_loop fuel' (returnArray ++ [DICTIONARY.(PAD)])
      else returnArray
  end.

(** [tokenize(wordArray)]: the row handed to [tf.tensor2d].  The loop
    starts from an array of at least one element, so [ENCODING_LENGTH]
    iterations always reach its exit test. *)
Definition tokenize (wordArray : list string) : list Z :=
  pad_loop ENCODING_LENGTH (push_words [DICTIONARY.(START)] wordArray).

(** The encoding [loadAndPredict] hands to [model.predict]. *)
Definition encode (inputText : string) : list Z :=
  tokenize (first_words inputText).

End WithDictionary.

End Tokenizer.

(** ** Promises and the TensorFlow.js runtime *)

Module Js.

(** How an awaited promise (or a call that may throw) ends. *)
Inductive Outcome (A : Type) : Type :=
| Resolved (value : A)
| Rejected (reason : string).
Arguments Resolved {A} value.
Arguments Rejected {A} reason.

(** A loaded [tf.LayersModel]: [predict] followed by [dataSync], that is
    the values of the output tensor for a 1 x n input row, or a throw. *)
Record LayersModel := { predict : list Z → Outcome (list float) }.

(** What the world outside the program answers: the outcome of the k-th
    call of [tf.loadLayersModel] (k counted from 0) and of [tf.ready]. *)
Record World := {
  loadLayersModel : nat → Outcome LayersModel;
  ready : Outcome unit
}.

(** The module state of [model.js] with two counters kept beside it:
    [model] is the variable [let model = undefined], [loadCalls] counts
    the calls of [tf.loadLayersModel] made so far, [numTensors] is
    [tf.memory().numTensors] for the tensors made by [tokenize] and
    [predict]. *)
Record Runtime := {
  model : option LayersModel;
  loadCalls : nat;
  numTensors : nat
}.

Definition initial : Runtime :=
  {| model := None; loadCalls := 0; numTensors := 0 |}.

Definition set_model (m : LayersModel) (rt : Runtime) : Runtime :=
  {| model := Some m; loadCalls := rt.(loadCalls); numTensors := rt.(numTensors) |}.

Definition count_load (rt : Runtime) : Runtime :=
  {| model := rt.(model); loadCalls := S rt.(loadCalls); numTensors := rt.(numTensors) |}.

(** A tensor is created and nothing disposes of it. *)
Definition new_tensor (rt : Runtime) : Runtime :=
  {| model := rt.(model); loadCalls := rt.(loadCalls); numTensors := S rt.(numTensors) |}.

(** An [async] function run to its end over a state [St]: it reads and
    writes the state and settles. *)
Definition Async (St A : Type) : Type := St → St * Outcome A.

Section Async.
Context {St : Type}.

Definition resolve {A} (a : A) : Async St A := λ s, (s, Resolved a).
Definition throw {A} (reason : string) : Async St A := λ s, (s, Rejected reason).

Definition bind {A B} (k : A → Async St B) (c : Async St A) : Async St B :=
  λ s, match c s with
       | (s', Resolved a) => k a s'
       | (s', Rejected reason) => (s', Rejected reason)
       end.

(** [try { c } catch (error) { handler }] *)
Definition try_catch {A} (c : Async St A) (handler : string → Async St A)
  : Async St A :=
  λ s, match c s with
       | (s', Resolved a) => (s', Resolved a)
       | (s', Rejected reason) => handler reason s'
       end.

(** [try { c } finally { cleanup }], for a [cleanup] that cannot throw. *)
Definition finally {A} (c : Async St A) (cleanup : St → St) : Async St A :=
  λ s, let '(s', o) := c s in (cleanup s', o).

Definition get : Async St St := λ s, (s, Resolved s).
Definition modify (f : St → St) : Async St unit := λ s, (f s, Resolved tt).
Definition settle {A} (o : Outcome A) : Async St A := λ s, (s, o).
End Async.

(** The notations [x ← c; k] and [c;; k] sequence two steps. *)
#[global] Instance async_ret {St} : MRet (Async St) := @resolve St.
#[global] Instance async_bind {St} : MBind (Async St) := @bind St.

(** A step on the runtime, run inside a larger state. *)
Definition on_runtime {T A} (c : Async Runtime A) : Async (Runtime * T) A :=
  λ '(rt, t), let '(rt', o) := c rt in ((rt', t), o).

(** What classification answers. *)
Record ClassificationResult := {
  isToxic : bool;
  toxicityScore : float
}.

End Js.

(** ** model.js: loading and inference *)

Module Model.
Import Js Tokenizer.

Section WithWorld.
Variable DICTIONARY : Dictionary.
Variable world : World.

(** [model = await tf.loadLayersModel(MODEL_JSON_URL)]: the call is
    counted, then its outcome is awaited; the assignment happens only
    when the promise resolves. *)
Definition load : Async Runtime unit :=
  rt ← get;
  modify count_load;;
  m ← settle (world.(loadLayersModel) rt.(loadCalls));
  modify (set_model m).

(** Lines 25 to 45 of [loadAndPredict], which run without suspension:
    normalise, split, slice, tokenize into a tensor, predict, read the
    output values, scale the value at index 1.  An index past the end
    of the typed array reads [undefined], and [undefined * 100] is NaN. *)
Definition predict_text (inputText : string) : Async Runtime float :=
  let lowercaseSentenceArray := first_words inputText in
  let input := tokenize DICTIONARY lowercaseSentenceArray in
  modify new_tensor;;
  rt ← get;
  match rt.(model) with
  | None => throw "TypeError: model is undefined"
  | Some m =>
      dataArray ← settle (m.(predict) input);
      modify new_tensor;;
      let toxicityLevel := (nth 1 dataArray nan * 100)%float in
      resolve toxicityLevel
  end.

(** [loadAndPredict(inputText)], one call run from start to end with no
    other call in between. *)
Definition loadAndPredict (inputText : string) : Async Runtime float :=
  rt ← get;
  (match rt.(model) with
   | None => load
   | Some _ => resolve tt
   end);;
  predict_text inputText.

(** *** Calls in flight

    An [async] function runs without interruption up to its [await] and
    again from the resumption to the end.  [loadAndPredict] has one
    [await], reached only when [model === undefined]. *)
Inductive Call :=
| Called (inputText : string)
| AwaitingLoad (inputText : string) (attempt : nat)
| Settled (result : Outcome float).

(** From the call to the [await] (or to the end when the model is set). *)
Definition begin (inputText : string) (rt : Runtime) : Runtime * Call :=
  match rt.(model) with
  | None => (count_load rt, AwaitingLoad inputText rt.(loadCalls))
  | Some _ =>
      let '(rt', r) := predict_text inputText rt in (rt', Settled r)
  end.

(** From the resumption of the [await] to the end. *)
Definition resume (inputText : string) (attempt : nat) (rt : Runtime)
  : Runtime * Call :=
  match world.(loadLayersModel) attempt with
  | Rejected reason => (rt, Settled (Rejected reason))
  | Resolved m =>
      let '(rt', r) := predict_text inputText (set_model m rt) in
      (rt', Settled r)
  end.

(** The event loop runs one segment of one pending call at a time. *)
Inductive step : Runtime * list Call → Runtime * list Call → Prop :=
| step_begin rt rt' calls i inputText c' :
    calls !! i = Some (Called inputText) →
    begin inputText rt = (rt', c') →
    step (rt, calls) (rt', <[i := c']> calls)
| step_resume rt rt' calls i inputText attempt c' :
    calls !! i = Some (AwaitingLoad inputText attempt) →
    resume inputText attempt rt = (rt', c') →
    step (rt, calls) (rt', <[i := c']> calls).

Inductive steps : Runtime * list Call → Runtime * list Call → Prop :=
| steps_refl s : steps s s
| steps_step s1 s2 s3 : step s1 s2 → steps s2 s3 → steps s1 s3.

(** The texts classified one call after the other. *)
Fixpoint predict_each (texts : list string) (rt : Runtime)
  : Runtime * list (Outcome float) :=
  match texts with
  | [] => (rt, [])
  | inputText :: rest =>
      let '(rt', r) := loadAndPredict inputText rt in
      let '(rt'', rs) := predict_each rest rt' in
      (rt'', r :: rs)
  end.

(** One call with no other call in between: its first segment, then the
    second one as soon as the load has settled. *)
Definition run_alone (inputText : string) (rt : Runtime) : Runtime * Call :=
  match begin inputText rt with
  | (rt1, AwaitingLoad t attempt) => resume t attempt rt1
  | other => other
  end.

End WithWorld.

End Model.

(** ** App.tsx: the single-text classifier *)

Module App.
Import JsString Js Tokenizer.

Definition TOXIC_WORDS : list string :=
  [ "spam"; "scam"; "hate"; "idiot"; "stupid"; "dumb"; "fool";
    "jerk"; "racist"; "kill"; "die"; "attack"; "threat"; "abuse";
    "offensive"; "violent"; "nasty"; "horrible"; "terrible" ].

(** [TOXIC_WORDS.some(word => lowerText.includes(word))] *)
Definition checkToxicityFallback (text : string) : bool :=
  let lowerText := toLowerCase text in
  existsb (λ word, includes lowerText word) TOXIC_WORDS.

(** The component state that classification reads: [model] is the flag
    set by [setModel(true)]. *)
Record AppState := {
  model : bool;
  modelLoading : bool;
  modelError : option string
}.

Definition mounted : AppState :=
  {| model := false; modelLoading := true; modelError := None |}.

Section WithWorld.
Variable DICTIONARY : Dictionary.
Variable world : World.

(** The effect run on mount. *)
Definition loadModel (app : AppState) : Async Runtime AppState :=
  try_catch
    (settle world.(ready);;
     Model.loadAndPredict DICTIONARY world "test";;
     resolve {| model := true; modelLoading := false;
                modelError := app.(modelError) |})
    (λ error,
     resolve {| model := app.(model); modelLoading := false;
                modelError := Some "Failed to load custom TensorFlow model. Using fallback detection." |}).

Definition checkToxicityWithModel (app : AppState) (text : string)
  : Async Runtime ClassificationResult :=
  if negb app.(model) then
    resolve {| isToxic := checkToxicityFallback text; toxicityScore := 0 |}
  else
    try_catch
      (toxicityScore ← Model.loadAndPredict DICTIONARY world text;
       let isToxic := (50 <? toxicityScore)%float in
       resolve {| isToxic := isToxic; toxicityScore := toxicityScore |})
      (λ error,
       resolve {| isToxic := checkToxicityFallback text; toxicityScore := 0 |}).

End WithWorld.

End App.

(** ** YouTubeComments.tsx: the batch analyzer *)

Module YouTubeComments.
Import JsString Js Tokenizer.

Record YouTubeComment := {
  id : string;
  text : string;
  author : string;
  publishedAt : string;
  likeCount : Z
}.

(** [AnalyzedComment extends YouTubeComment]; the two optional fields are
    [None] when absent from the object. *)
Record AnalyzedComment := {
  comment : YouTubeComment;
  isToxic : bool;
  toxicityScore : option float;
  isAnalyzing : option bool
}.

(** What the component does that a consumer can observe, in order.  The
    two classification events mark the call of [checkToxicityWithModel]
    for the item at an index and the resolution of its promise. *)
Inductive Event :=
| ClassifyStart (index : nat)
| ClassifyEnd (index : nat) (result : ClassificationResult)
| SetComments (snapshot : list AnalyzedComment).

Record Page := {
  comments : list AnalyzedComment;
  loading : bool;
  error : option string;
  trace : list Event
}.

Definition first_render : Page :=
  {| comments := []; loading := true; error := None; trace := [] |}.

Definition record (e : Event) (p : Page) : Page :=
  {| comments := p.(comments); loading := p.(loading); error := p.(error);
     trace := p.(trace) ++ [e] |}.

Definition setComments (snapshot : list AnalyzedComment) (p : Page) : Page :=
  record (SetComments snapshot)
    {| comments := snapshot; loading := p.(loading); error := p.(error);
       trace := p.(trace) |}.

Definition setLoading (b : bool) (p : Page) : Page :=
  {| comments := p.(comments); loading := b; error := p.(error);
     trace := p.(trace) |}.

Definition setError (msg : string) (p : Page) : Page :=
  {| comments := p.(comments); loading := p.(loading); error := Some msg;
     trace := p.(trace) |}.

Definition on_page (f : Page → Page) : Async (Runtime * Page) unit :=
  modify (λ '(rt, p), (rt, f p)).

Definition TOXIC_WORDS : list string :=
  [ "spam"; "scam"; "hate"; "idiot"; "stupid"; "dumb"; "fool";
    "jerk"; "racist"; "kill"; "die"; "attack"; "threat"; "abuse";
    "offensive"; "violent"; "nasty"; "horrible"; "terrible" ].

Definition checkToxicityFallback (text : string) : bool :=
  let lowerText := toLowerCase text in
  existsb (λ word, includes lowerText word) TOXIC_WORDS.

(** [{ ...comment, isAnalyzing: true, isToxic: false }] *)
Definition pending (c : YouTubeComment) : AnalyzedComment :=
  {| comment := c; isToxic := false; toxicityScore := None;
     isAnalyzing := Some true |}.

(** [{ ...comment, isToxic: result.isToxic,
       toxicityScore: result.toxicityScore, isAnalyzing: false }] *)
Definition analyzed (c : YouTubeComment) (result : ClassificationResult)
  : AnalyzedComment :=
  {| comment := c; isToxic := result.(Js.isToxic);
     toxicityScore := Some result.(Js.toxicityScore);
     isAnalyzing := Some false |}.

Section WithWorld.
Variable DICTIONARY : Dictionary.
Variable world : World.

Definition checkToxicityWithModel (text : string)
  : Async Runtime ClassificationResult :=
  try_catch
    (toxicityScore ← Model.loadAndPredict DICTIONARY world text;
     let isToxic := (50 <? toxicityScore)%float in
     resolve {| Js.isToxic := isToxic; Js.toxicityScore := toxicityScore |})
    (λ error,
     resolve {| Js.isToxic := checkToxicityFallback text;
                Js.toxicityScore := 0 |}).

(** [for (const comment of fetchedComments) { ... }]: [todo] is what the
    iterator has not yielded yet. *)
Fixpoint for_of (fetchedComments todo : list YouTubeComment)
    (analyzedComments : list AnalyzedComment)
  : Async (Runtime * Page) (list AnalyzedComment) :=
  match todo with
  | [] => resolve analyzedComments
  | comment :: rest =>
      on_page (record (ClassifyStart (length analyzedComments)));;
      result ← on_runtime (checkToxicityWithModel comment.(text));
      on_page (record (ClassifyEnd (length analyzedComments) result));;
      let analyzedComments := analyzedComments ++ [analyzed comment result] in
      on_page (setComments
        (analyzedComments ++
         map pending (drop (length analyzedComments) fetchedComments)));;
      for_of fetchedComments rest analyzedComments
  end.

(** The results of classifying the items one after the other, each call
    in the runtime left by the call before it. *)
Fixpoint classify_all (todo : list YouTubeComment) (rt : Runtime)
  : Runtime * list ClassificationResult :=
  match todo with
  | [] => (rt, [])
  | c :: rest =>
      match checkToxicityWithModel c.(text) rt with
      | (rt', Resolved r) =>
          let '(rt'', rs) := classify_all rest rt' in (rt'', r :: rs)
      | (rt', Rejected _) => (rt', [])
      end
  end.

(** [loadComments], given how [fetchYouTubeComments(videoId)] settles. *)
Definition loadComments (fetched : Outcome (list YouTubeComment))
  : Async (Runtime * Page) unit :=
  finally
    (try_catch
       (on_page (setLoading true);;
        fetchedComments ← settle fetched;
        on_page (setComments (map pending fetchedComments));;
        for_of fetchedComments fetchedComments [];;
        resolve tt)
       (λ err, on_page (setError "Failed to load comments. Please try again.")))
    (λ '(rt, p), (rt, setLoading false p)).

End WithWorld.

(** The list in which the first [k] items carry their results and the
    others are pending. *)
Definition snapshot (items : list YouTubeComment)
    (results : list ClassificationResult) (k : nat) : list AnalyzedComment :=
  zip_with analyzed (take k items) (take k results)
  ++ map pending (drop k items).

(** What one turn of the loop records for the item at index [k]. *)
Definition round (items : list YouTubeComment)
    (results : list ClassificationResult) (k : nat) (r : ClassificationResult)
  : list Event :=
  [ ClassifyStart k; ClassifyEnd k r; SetComments (snapshot items results (S k)) ].

(** The arguments of the calls of [setComments], in order. *)
Definition emitted (events : list Event) : list (list AnalyzedComment) :=
  omap (λ e, match e with SetComments s => Some s | _ => None end) events.

End YouTubeComments.

(** ** The tokenizer's first two steps as the specification words them *)

Module Spec.
Import JsString.

(** "replace every character that is not alphanumeric or whitespace with
    a single space" *)
Definition blank_char (c : ascii) : ascii :=
  if is_alnum c || is_space_char c then c else space.

(** "lower-case the entire input, then replace ..." *)
Definition normalize (inputText : string) : string :=
  map_chars blank_char (toLowerCase inputText).

(** "split the normalized text on whitespace", empty tokens preserved. *)
Fixpoint split_whitespace (s : string) : list string :=
  match s with
  | EmptyString => [EmptyString]
  | String c r =>
      if is_space_char c then EmptyString :: split_whitespace r
      else match split_whitespace r with
           | w :: ws => String c w :: ws
           | [] => [String c EmptyString]
           end
  end.

Definition words (inputText : string) : list string :=
  split_whitespace (normalize inputText).

End Spec.

(** ** Concrete dictionaries, models and worlds *)

Module Examples.
Import Js Tokenizer.

(** Modelled from the spec: [dictionary.js] is missing from the sources.
    Three control tokens, distinct from each other, and a table from
    lower-cased words to ids disjoint from the control tokens. *)
Definition dictionary : Dictionary :=
  {| START := 1; UNKNOWN := 2; PAD := 0;
     LOOKUP := list_to_map [("i", 3%Z); ("hate", 4%Z); ("you", 5%Z); ("don", 6%Z)] |}.

(** A model that answers the same output vector for every input. *)
Definition constant_model (output : list float) : LayersModel :=
  {| predict := λ _, Resolved output |}.

(** A model whose inference throws. *)
Definition broken_model : LayersModel :=
  {| predict := λ _, Rejected "predict failed" |}.

(** The artifact loads at every attempt. *)
Definition online (m : LayersModel) : World :=
  {| loadLayersModel := λ _, Resolved m; ready := Resolved tt |}.

(** The artifact never loads. *)
Definition offline : World :=
  {| loadLayersModel := λ _, Rejected "model.json: fetch failed";
     ready := Resolved tt |}.

(** The artifact fails to load at the first attempt and loads afterwards. *)
Definition flaky (m : LayersModel) : World :=
  {| loadLayersModel := λ attempt,
       match attempt with
       | O => Rejected "model.json: fetch failed"
       | S _ => Resolved m
       end;
     ready := Resolved tt |}.


Definition comment_of (text : string) : YouTubeComments.YouTubeComment :=
  {| YouTubeComments.id := "c"; YouTubeComments.text := text;
     YouTubeComments.author := "a"; YouTubeComments.publishedAt := "t";
     YouTubeComments.likeCount := 0 |}.

End Examples.

(** ** App.tsx: submitting a text *)

Module Submit.
Import JsString Js Tokenizer.

(** [String.prototype.trimStart], [trimEnd] and [trim]: the white space and
    line terminators removed are the code units of [\s]. *)
Fixpoint trimStart (s : string) : string :=
  match s with
  | EmptyString => EmptyString
  | String c r => if is_space_char c then trimStart r else s
  end.

Fixpoint trimEnd (s : string) : string :=
  match s with
  | EmptyString => EmptyString
  | String c r =>
      match trimEnd r with
      | EmptyString => if is_space_char c then EmptyString else String c EmptyString
      | t => String c t
      end
  end.

Definition trim (s : string) : string := trimEnd (trimStart s).

(** A string in a condition: the empty string is falsy. *)
Definition truthy (s : string) : bool :=
  match s with
  | EmptyString => false
  | String _ _ => true
  end.

(** [SearchEntry]; [id] is [Date.now()], [timestamp] is [new Date()]. *)
Record SearchEntry := {
  id : Z;
  text : string;
  isToxic : bool;
  timestamp : Z;
  toxicityScore : option float
}.

(** The component state [handleSubmit] reads and writes. *)
Record Form := {
  inputText : string;
  searchHistory : list SearchEntry;
  isAnalyzing : bool
}.

Definition setIsAnalyzing (b : bool) (f : Form) : Form :=
  {| inputText := f.(inputText); searchHistory := f.(searchHistory);
     isAnalyzing := b |}.

Definition setInputText (t : string) (f : Form) : Form :=
  {| inputText := t; searchHistory := f.(searchHistory);
     isAnalyzing := f.(isAnalyzing) |}.

(** [setSearchHistory(prev => [newEntry, ...prev])] *)
Definition addEntry (newEntry : SearchEntry) (f : Form) : Form :=
  {| inputText := f.(inputText);
     searchHistory := newEntry :: f.(searchHistory);
     isAnalyzing := f.(isAnalyzing) |}.

Definition on_form (f : Form → Form) : Async (Runtime * Form) unit :=
  modify (λ '(rt, fm), (rt, f fm)).

Section WithWorld.
Variable DICTIONARY : Dictionary.
Variable world : World.

(** [handleSubmit], for the component state [app] of the render it was
    created in; [now] and [today] are what [Date.now()] and [new Date()]
    answer when the entry is built. *)
Definition handleSubmit (app : App.AppState) (now today : Z)
  : Async (Runtime * Form) unit :=
  st ← get;
  let inputText := st.2.(inputText) in
  if truthy (trim inputText) then
    on_form (setIsAnalyzing true);;
    finally
      (try_catch
         (result ← on_runtime (App.checkToxicityWithModel DICTIONARY world app inputText);
          let newEntry :=
            {| id := now; text := inputText;
               isToxic := result.(Js.isToxic);
               timestamp := today;
               toxicityScore := Some result.(Js.toxicityScore) |} in
          on_form (addEntry newEntry);;
          on_form (setInputText ""))
         (λ error,
          let isToxic := App.checkToxicityFallback inputText in
          let newEntry :=
            {| id := now; text := inputText; isToxic := isToxic;
               timestamp := today; toxicityScore := None |} in
          on_form (addEntry newEntry);;
          on_form (setInputText "")))
      (λ '(rt, fm), (rt, setIsAnalyzing false fm))
  else
    resolve tt.

End WithWorld.

End Submit.

(** ** YouTubeComments.tsx: what the page shows *)

Module CommentsView.
Import YouTubeComments.

(** [showToxicOnly ? comments.filter(comment => comment.isToxic) : comments] *)
Definition filteredComments (showToxicOnly : bool)
    (comments : list AnalyzedComment) : list AnalyzedComment :=
  if showToxicOnly then List.filter (λ comment, comment.(isToxic)) comments
  else comments.

(** [comments.filter(c => c.isToxic).length], the number in
    "... toxic comments found". *)
Definition toxicCount (comments : list AnalyzedComment) : nat :=
  length (List.filter (λ c, c.(isToxic)) comments).

End CommentsView.

(** ** services/youtube.ts: fetching the comments *)

Module Youtube.
Import JsString Js.

(** One element of [data.items]; the nested [snippet.topLevelComment.snippet]
    is flattened. *)
Record ApiItem := {
  item_id : string;
  authorDisplayName : string;
  textDisplay : string;
  item_publishedAt : string;
  item_likeCount : Z
}.

Record YouTubeApiResponse := {
  items : list ApiItem;
  nextPageToken : option string
}.

(** How one [fetch] ends: the promise rejects, or a response arrives with
    its [ok] flag, [status] (as the template literal prints it),
    [statusText] and the outcome of [response.json()]. *)
Inductive FetchResult :=
| NetworkError (reason : string)
| Response (ok : bool) (status statusText : string)
    (json : Outcome YouTubeApiResponse).

(** The API: what the k-th request answers, given the [pageToken] parameter
    sent with it (none when the parameter is absent). *)
Definition Server : Type := nat → option string → FetchResult.

(** [item => ({ id: item.id, text: ...textDisplay, author:
    ...authorDisplayName, publishedAt: ..., likeCount: ... })] *)
Definition to_comment (item : ApiItem) : YouTubeComments.YouTubeComment :=
  {| YouTubeComments.id := item.(item_id);
     YouTubeComments.text := item.(textDisplay);
     YouTubeComments.author := item.(authorDisplayName);
     YouTubeComments.publishedAt := item.(item_publishedAt);
     YouTubeComments.likeCount := item.(item_likeCount) |}.

(** A token in a condition: [undefined] and the empty string are falsy. *)
Definition truthy_token (t : option string) : bool :=
  match t with
  | Some (String _ _) => true
  | _ => false
  end.

(** [if (nextPageToken) params.append('pageToken', nextPageToken)] *)
Definition sent_token (t : option string) : option string :=
  if truthy_token t then t else None.

Section WithServer.
Variable server : Server.
Variable maxResults : Z.

(** The [do ... while] loop of [fetchYouTubeComments] from the request
    number [k] on; [fuel] bounds the requests, and [None] is a run that is
    still going when the fuel is spent.  An error thrown in the loop is
    logged and thrown again by the [catch]. *)
Fixpoint fetch_loop (fuel k : nat) (comments : list YouTubeComments.YouTubeComment)
    (nextPageToken : option string)
  : option (Outcome (list YouTubeComments.YouTubeComment)) :=
  match fuel with
  | O => None
  | S fuel' =>
      match server k (sent_token nextPageToken) with
      | NetworkError reason => Some (Rejected reason)
      | Response false status statusText _ =>
          Some (Rejected ("YouTube API error: " +:+ status +:+ " " +:+ statusText))
      | Response true _ _ (Rejected reason) => Some (Rejected reason)
      | Response true _ _ (Resolved data) =>
          let newComments := map to_comment data.(items) in
          let comments := comments ++ newComments in
          let nextPageToken := data.(Youtube.nextPageToken) in
          if truthy_token nextPageToken
             && (Z.of_nat (length comments) <? maxResults)%Z
          then fetch_loop fuel' (S k) comments nextPageToken
          else Some (Resolved comments)
      end
  end.

(** [fetchYouTubeComments(videoId, maxResults)] against a given server. *)
Definition fetchYouTubeComments (fuel : nat)
  : option (Outcome (list YouTubeComments.YouTubeComment)) :=
  fetch_loop fuel 0 [] None.

End WithServer.

End Youtube.

(** ** Regular expressions

    The fragment of JavaScript regular expressions that [extractVideoId]
    uses, with the matching order of the language: a star is greedy and
    gives characters back one at a time, an alternation tries its left
    branch first, an optional part is tried before it is skipped, and a
    group records what its body consumed on the path that succeeds. *)

Module Regex.
Import JsString.

Inductive Atom :=
| Lit (c : ascii)
| Dot
| WordChar
| NoneOf (cs : list ascii).

Inductive Regex :=
| Eps
| At (a : Atom)
| Star (a : Atom)
| Seq (r1 r2 : Regex)
| Alt (r1 r2 : Regex)
| Opt (r : Regex)
| Group (n : nat) (r : Regex).

(** [.] matches every code unit but the line terminators LF and CR. *)
Definition is_line_terminator (c : ascii) : bool :=
  (code c =? 10)%N || (code c =? 13)%N.

Definition atom_matches (a : Atom) (c : ascii) : bool :=
  match a with
  | Lit d => Ascii.eqb c d
  | Dot => negb (is_line_terminator c)
  | WordChar => is_word_char c
  | NoneOf cs => negb (existsb (Ascii.eqb c) cs)
  end.

(** The literal text [s], character by character. *)
Fixpoint literal (s : string) : Regex :=
  match s with
  | EmptyString => Eps
  | String c r => Seq (At (Lit c)) (literal r)
  end.

Definition Captures : Type := gmap nat string.

(** What was consumed between the input [s] and the rest [s']. *)
Definition consumed (s s' : string) : string :=
  String.substring 0 (String.length s - String.length s') s.

Section Exec.
Context {R : Type}.

(** [a*] on [s]: as many characters as match, then fewer, until the
    continuation accepts. *)
Fixpoint star (p : ascii → bool) (s : string) (k : string → option R)
  : option R :=
  match s with
  | EmptyString => k s
  | String c s' =>
      if p c then
        match star p s' k with
        | Some r => Some r
        | None => k s
        end
      else k s
  end.

(** Matching [r] at the start of [s], then the continuation [k] on the
    rest; [None] when every way of matching fails. *)
Fixpoint exec (r : Regex) (s : string) (caps : Captures)
    (k : string → Captures → option R) : option R :=
  match r with
  | Eps => k s caps
  | At a =>
      match s with
      | EmptyString => None
      | String c s' => if atom_matches a c then k s' caps else None
      end
  | Star a => star (atom_matches a) s (λ s', k s' caps)
  | Seq r1 r2 => exec r1 s caps (λ s' caps', exec r2 s' caps' k)
  | Alt r1 r2 =>
      match exec r1 s caps k with
      | Some res => Some res
      | None => exec r2 s caps k
      end
  | Opt r1 =>
      match exec r1 s caps k with
      | Some res => Some res
      | None => k s caps
      end
  | Group n r1 =>
      exec r1 s caps (λ s' caps', k s' (<[n := consumed s s']> caps'))
  end.
End Exec.

(** [s.match(r)] for a pattern that starts with [^] and has no flag: the
    groups of the match at position 0, if there is one. *)
Definition match_anchored (r : Regex) (s : string) : option Captures :=
  exec r s ∅ (λ _ caps, Some caps).

End Regex.

(** ** services/youtube.ts: the video id of a URL *)

Module VideoId.
Import JsString Js Regex.

(** The five ways a URL announces the id: group 1 of the pattern. *)
Definition announcer : Regex :=
  Group 1
    (Alt (Group 2 (Seq (literal "youtu") (Seq (At Dot) (literal "be/"))))
    (Alt (Group 3 (literal "v/"))
    (Alt (Group 4 (Seq (literal "/u/") (Seq (At WordChar) (literal "/"))))
    (Alt (Group 5 (literal "embed/"))
         (Group 6 (literal "watch?")))))).

(** After the announcer: an optional question mark, an optional [v], an
    optional [=], then group 7, the longest run of characters other than
    [#], [&] and [?], then the rest of the line. *)
Definition id_part : Regex :=
  Seq (Opt (At (Lit "?")))
  (Seq (Opt (At (Lit "v")))
  (Seq (Opt (At (Lit "=")))
  (Seq (Group 7 (Star (NoneOf ["#"; "&"; "?"]%char)))
       (Star Dot)))).

(** The pattern [regExp] of [extractVideoId]: anchored at the start, any
    run of characters of the line, the announcer, the id part. *)
Definition regExp : Regex := Seq (Star Dot) (Seq announcer id_part).

(** [extractVideoId(url)]; reading [length] of a group that did not take
    part in the match throws. *)
Definition extractVideoId (url : string) : Outcome (option string) :=
  match match_anchored regExp url with
  | None => Resolved None
  | Some groups =>
      match groups !! 7 with
      | None => Rejected "TypeError: match[7] is undefined"
      | Some id =>
          if (String.length id =? 11)%nat then Resolved (Some id)
          else Resolved None
      end
  end.

End VideoId.

(** ** Counting the calls in flight *)

Module Flight.

Definition is_called (c : Model.Call) : bool :=
  match c with
  | Model.Called _ => true
  | _ => false
  end.

(** The calls that have not started yet. *)
Definition not_started (calls : list Model.Call) : nat :=
  length (List.filter is_called calls).

End Flight.

(** ** The model flag of App.tsx and the model of model.js *)

Module AppModel.
Import Js.

(** The flag [model] of the component is set only when the module variable
    [model] of [model.js] is. *)
Definition linked (app : App.AppState) (rt : Runtime) : Prop :=
  app.(App.model) = true → is_Some rt.(model).

End AppModel.

(** ** The pages a fetch goes through *)

Module Pages.
Import Js Youtube.

(** The comments of a run of pages, in order. *)
Definition comments_of (pages : list YouTubeApiResponse)
  : list YouTubeComments.YouTubeComment :=
  flat_map (λ pg, map to_comment pg.(items)) pages.

(** [pages] are the answers, all of them with [ok] set and a body that
    parses, to consecutive requests from number [k] on, the first one sent
    with the token [tok] and each next one with the token of the page
    before it. *)
Fixpoint chain (server : Server) (k : nat) (tok : option string)
    (pages : list YouTubeApiResponse) : Prop :=
  match pages with
  | [] => True
  | pg :: rest =>
      (∃ status statusText,
         server k (sent_token tok)
           = Response true status statusText (Resolved pg))
      ∧ chain server (S k) pg.(nextPageToken) rest
  end.

(** The token a request is sent with after [pages], starting from [tok]. *)
Definition token_after (tok : option string) (pages : list YouTubeApiResponse)
  : option string :=
  match last pages with
  | Some pg => pg.(nextPageToken)
  | None => tok
  end.

(** How a request fails with [reason]. *)
Definition fails_with (r : FetchResult) (reason : string) : Prop :=
  match r with
  | NetworkError why => reason = why
  | Response false status statusText _ =>
      reason = "YouTube API error: " +:+ status +:+ " " +:+ statusText
  | Response true _ _ (Rejected why) => reason = why
  | Response true _ _ (Resolved _) => False
  end.

(** [loadComments] with its fetch: [fetchYouTubeComments(videoId)] is
    called with the default [maxResults = 100]. *)
Definition loadCommentsFrom (D : Tokenizer.Dictionary) (world : World)
    (server : Server) (fuel : nat) (st : Runtime * YouTubeComments.Page)
  : option ((Runtime * YouTubeComments.Page) * Outcome unit) :=
  match fetchYouTubeComments server 100 fuel with
  | None => None
  | Some fetched => Some (YouTubeComments.loadComments D world fetched st)
  end.

End Pages.

(** ** Concrete servers *)

Module PageExamples.
Import Js Youtube.

Definition item (n text : string) : ApiItem :=
  {| item_id := n; authorDisplayName := "a"; textDisplay := text;
     item_publishedAt := "t"; item_likeCount := 0 |}.

(** A first page of two comments with a token, then a page of one comment
    and no token. *)
Definition two_pages : Server :=
  λ _ tok,
    match tok with
    | None =>
        Response true "200" "OK"
          (Resolved {| items := [item "1" "first"; item "2" "second"];
                       nextPageToken := Some "next" |})
    | Some _ =>
        Response true "200" "OK"
          (Resolved {| items := [item "3" "third"]; nextPageToken := None |})
    end.

(** A first page, then a refusal. *)
Definition quota_exceeded : Server :=
  λ _ tok,
    match tok with
    | None =>
        Response true "200" "OK"
          (Resolved {| items := [item "1" "first"];
                       nextPageToken := Some "next" |})
    | Some _ =>
        Response false "403" "Forbidden" (Rejected "no body")
    end.

End PageExamples.

(** ** Reading a URL by hand

    The functions the pattern of [extractVideoId] is compared with. *)

Module UrlParts.
Import JsString Regex.

(** The rest of [t] after the text [w], when [t] starts with it. *)
Fixpoint strip_prefix (w t : string) : option string :=
  match w with
  | EmptyString => Some t
  | String a w' =>
      match t with
      | EmptyString => None
      | String b t' => if Ascii.eqb b a then strip_prefix w' t' else None
      end
  end.

(** The longest run of characters satisfying [p] at the start of [s], and
    what follows it. *)
Fixpoint take_while (p : ascii → bool) (s : string) : string :=
  match s with
  | EmptyString => EmptyString
  | String c r => if p c then String c (take_while p r) else EmptyString
  end.

Fixpoint drop_while (p : ascii → bool) (s : string) : string :=
  match s with
  | EmptyString => EmptyString
  | String c r => if p c then drop_while p r else s
  end.

(** [s] without its first character when that character is [c]. *)
Definition skip_char (c : ascii) (s : string) : string :=
  match s with
  | EmptyString => s
  | String d r => if Ascii.eqb d c then r else s
  end.

Definition id_char (c : ascii) : bool :=
  atom_matches (NoneOf ["#"; "&"; "?"]%char) c.

(** What follows an announcer: an optional question mark, [v] and [=] are
    passed over, and the id runs up to the next [#], [&] or [?]. *)
Definition id_after (s : string) : string :=
  take_while id_char (skip_char "=" (skip_char "v" (skip_char "?" s))).

(** No announcer can start in [t]: there is no slash in it and it does
    not contain the text "watch?". *)
Definition announcer_free (t : string) : Prop :=
  ("/"%char ∉ chars t) ∧ includes t "watch?" = false.

(** Whether [t] starts with the text [w]. *)
Definition starts (w t : string) : bool :=
  match strip_prefix w t with
  | Some _ => true
  | None => false
  end.

(** Whether [t] starts with one of the five announcers. *)
Definition announced (t : string) : bool :=
  match strip_prefix "youtu" t with
  | Some (String c r) => negb (is_line_terminator c) && starts "be/" r
  | _ => false
  end
  || starts "v/" t
  || match strip_prefix "/u/" t with
     | Some (String c r) => is_word_char c && starts "/" r
     | _ => false
     end
  || starts "embed/" t
  || starts "watch?" t.

(** What the pattern still has to match once the star over the line has
    stopped in front of [s1]. *)
Definition after_line (s1 : string) : option Captures :=
  exec VideoId.announcer s1 ∅
    (λ s2 c2, exec VideoId.id_part s2 c2 (λ _ c, Some c)).

End UrlParts.

(** ** model.js: the property read of the tokenizer

    [DICTIONARY.LOOKUP[word]] is a property read.  On a table written as an
    object literal the read answers the own property when the word is a key
    of the table, and otherwise goes on to [Object.prototype]: a word that
    names one of its properties reads a function or an object, and only the
    other words read [undefined]. *)

Module PlainObject.
Import JsString Tokenizer.

(** What [tokenize] pushes: a number, or the value of the property of
    [Object.prototype] with the given name. *)
Inductive Value :=
| Num (z : Z)
| Inherited (name : string).

(** The property names of [Object.prototype]. *)
Definition OBJECT_PROTOTYPE : list string :=
  [ "constructor"; "hasOwnProperty"; "isPrototypeOf"; "propertyIsEnumerable";
    "toLocaleString"; "toString"; "valueOf";
    "__defineGetter__"; "__defineSetter__"; "__lookupGetter__";
    "__lookupSetter__"; "__proto__" ].

(** [table[word]] for a table with the own properties [own]; [None] is
    [undefined]. *)
Definition read (own : gmap string Z) (word : string) : option Value :=
  match own !! word with
  | Some id => Some (Num id)
  | None =>
      if bool_decide (word ∈ OBJECT_PROTOTYPE) then Some (Inherited word)
      else None
  end.

Section WithDictionary.
Variable DICTIONARY : Dictionary.

(** [let encoding = DICTIONARY.LOOKUP[wordArray[i]]] followed by
    [encoding === undefined ? DICTIONARY.UNKNOWN : encoding] *)
Definition token (word : string) : Value :=
  match read DICTIONARY.(LOOKUP) word with
  | Some encoding => encoding
  | None => Num DICTIONARY.(UNKNOWN)
  end.

(** The [for] loop of [tokenize]. *)
Fixpoint push_words (returnArray : list Value) (wordArray : list string)
  : list Value :=
  match wordArray with
  | [] => returnArray
  | w :: rest => push_words (returnArray ++ [token w]) rest
  end.

(** The [while] loop of [tokenize]; [fuel] bounds the iterations. *)
Fixpoint pad_loop (fuel : nat) (returnArray : list Value) : list Value :=
  match fuel with
  | O => returnArray
  | S fuel' =>
      if (length returnArray <? ENCODING_LENGTH)%nat
      then pad_loop fuel' (returnArray ++ [Num DICTIONARY.(PAD)])
      else returnArray
  end.

(** [returnArray] at the end of [tokenize(wordArray)]. *)
Definition tokenize (wordArray : list string) : list Value :=
  pad_loop ENCODING_LENGTH (push_words [Num DICTIONARY.(START)] wordArray).

(** The row [loadAndPredict] builds for [inputText]. *)
Definition encode (inputText : string) : list Value :=
  tokenize (first_words inputText).

End WithDictionary.

(** Whether a value is a number. *)
Definition is_number (v : Value) : bool :=
  match v with
  | Num _ => true
  | Inherited _ => false
  end.

End PlainObject.

(** * Properties *)

Import JsString Js Tokenizer.

(** ** Strings *)

Section StringFacts.

Lemma chars_map_chars f s : chars (map_chars f s) = map f (chars s).
Proof. induction s as [|c r IH]; simpl; [done | by rewrite IH]. Qed.

Lemma chars_inj s t : chars s = chars t → s = t.
Proof.
  revert t; induction s as [|c r IH]; intros [|d t]; simpl; try done.
  intros [= -> H]. by rewrite (IH _ H).
Qed.

Lemma chars_append s t : chars (s +:+ t) = chars s ++ chars t.
Proof. induction s as [|c r IH]; simpl; [done | by rewrite IH]. Qed.

Lemma startsWith_spec s w :
  startsWith s w = true ↔ ∃ post, s = w +:+ post.
Proof.
  revert s; induction w as [|a w IH]; intros s; simpl.
  - split; [by exists s | done].
  - destruct s as [|b s]; simpl.
    + split; [done | by intros [post ?]].
    + rewrite andb_true_iff, IH. split.
      * intros [Hab [post ->]]. apply Ascii.eqb_eq in Hab as ->. by exists post.
      * intros [post [= -> ->]]. split; [apply Ascii.eqb_refl | by exists post].
Qed.

(** [includes] is the substring test. *)
Lemma includes_spec s w :
  includes s w = true ↔ ∃ pre post, s = pre +:+ w +:+ post.
Proof.
  induction s as [|c s IH]; simpl; rewrite orb_true_iff, startsWith_spec.
  - split.
    + intros [[post ->] | ?]; [by exists EmptyString, post | done].
    + intros [[|? pre] [post H]]; [left; by exists post | done].
  - rewrite IH. split.
    + intros [[post ->] | (pre & post & ->)].
      * by exists EmptyString, post.
      * by exists (String c pre), post.
    + intros [[|d pre] [post H]].
      * left. by exists post.
      * right. simpl in H. injection H as -> ->. by exists pre, post.
Qed.

(** The pieces of [split] joined by the separator give the string back. *)
Lemma split_nonempty sep s : split sep s ≠ [].
Proof.
  destruct s as [|c r]; simpl; [done|].
  destruct (Ascii.eqb c sep); [done|]. by destruct (split sep r).
Qed.








End StringFacts.

(** ** The tokenizer *)

Section TokenizerFacts.
Variable D : Dictionary.

Lemma push_words_spec acc ws :
  push_words D acc ws = acc ++ map (token D) ws.
Proof.
  revert acc; induction ws as [|w ws IH]; intros acc; simpl.
  - by rewrite app_nil_r.
  - by rewrite IH, <- app_assoc.
Qed.

Lemma pad_loop_spec fuel arr :
  (ENCODING_LENGTH ≤ length arr + fuel)%nat →
  pad_loop D fuel arr = arr ++ replicate (ENCODING_LENGTH - length arr) D.(PAD).
Proof.
  unfold ENCODING_LENGTH.
  revert arr; induction fuel as [|fuel IH]; intros arr H; cbn [pad_loop].
  - replace (21 - length arr) with 0 by lia. by rewrite app_nil_r.
  - unfold ENCODING_LENGTH. destruct (Nat.ltb_spec (length arr) 21) as [Hlt|Hge].
    + rewrite IH by (rewrite length_app; simpl; lia).
      rewrite length_app. simpl length.
      replace (21 - length arr) with (S (21 - (length arr + 1))) by lia.
      by rewrite <- app_assoc.
    + replace (21 - length arr) with 0 by lia. by rewrite app_nil_r.
Qed.

(** [tokenize] in closed form. *)
Lemma tokenize_spec ws :
  tokenize D ws =
    D.(START) :: map (token D) ws ++ replicate (20 - length ws) D.(PAD).
Proof.
  unfold tokenize. rewrite push_words_spec, pad_loop_spec.
  - simpl. rewrite length_map. done.
  - simpl. unfold ENCODING_LENGTH. lia.
Qed.

(** The [while] loop is left through its exit test, not for lack of fuel. *)
Lemma pad_loop_exits ws :
  (length (tokenize D ws) <? ENCODING_LENGTH) = false.
Proof.
  rewrite tokenize_spec. apply Nat.ltb_ge. simpl.
  rewrite length_app, length_map, length_replicate. unfold ENCODING_LENGTH. lia.
Qed.

Lemma first_words_length text : (length (first_words text) ≤ 20)%nat.
Proof. unfold first_words. rewrite length_take. lia. Qed.

End TokenizerFacts.

Section SplitUnique.




End SplitUnique.

(** ** Claims about the tokenizer *)

(** The encoding when the table is read as a finite map, which is the read
    of the code for every word that names no property of [Object.prototype]:
    START, then for each of the first (at most 20) words its dictionary id
    or UNKNOWN, then PAD up to length 21; two texts with the same first 20
    words have the same encoding. *)
Lemma encode_closed_form (D : Dictionary) (text : string) :
  let ws := take 20 (words text) in
  length (encode D text) = 21
  ∧ encode D text
      = D.(START) :: map (token D) ws ++ replicate (20 - length ws) D.(PAD)
  ∧ length ws ≤ 20
  ∧ (∀ w, token D w = default D.(UNKNOWN) (D.(LOOKUP) !! w))
  ∧ (∀ text', take 20 (words text') = ws → encode D text' = encode D text).
Proof.
  intros ws. pose proof (first_words_length text) as Hlen.
  assert (Henc : ∀ t, encode D t = D.(START) :: map (token D) (take 20 (words t))
            ++ replicate (20 - length (take 20 (words t))) D.(PAD))
    by (intros t; apply tokenize_spec).
  split_and!.
  - rewrite Henc. simpl. rewrite length_app, length_map, length_replicate.
    unfold first_words in Hlen. lia.
  - apply Henc.
  - apply Hlen.
  - intros w. unfold token. by destruct (LOOKUP D !! w).
  - intros text' Heq. rewrite !Henc. subst ws. by rewrite Heq.
Qed.


Section NormalizedCharacter.





End NormalizedCharacter.



(** ** The classifier *)

Ltac async_unfold :=
  unfold mbind, mret, async_bind, async_ret, Js.bind, Js.try_catch, Js.finally,
    Js.resolve, Js.throw, Js.get, Js.modify, Js.settle, Js.on_runtime in *.

Section ClassifierFacts.
Variable D : Dictionary.
Variable world : World.

(** [predict_text] by cases. *)
Lemma predict_text_cases text rt :
  Model.predict_text D text rt =
    match rt.(model) with
    | None => (new_tensor rt, Rejected "TypeError: model is undefined")
    | Some m =>
        match m.(predict) (encode D text) with
        | Rejected reason => (new_tensor rt, Rejected reason)
        | Resolved dataArray =>
            (new_tensor (new_tensor rt),
             Resolved (nth 1 dataArray nan * 100)%float)
        end
    end.
Proof.
  unfold Model.predict_text, encode. async_unfold. simpl.
  destruct (model rt) as [m|]; [|done].
  by destruct (predict m _).
Qed.

(** [loadAndPredict] by cases. *)
Lemma loadAndPredict_cases text rt :
  Model.loadAndPredict D world text rt =
    match rt.(model) with
    | Some _ => Model.predict_text D text rt
    | None =>
        match world.(loadLayersModel) rt.(loadCalls) with
        | Rejected reason => (count_load rt, Rejected reason)
        | Resolved m => Model.predict_text D text (set_model m (count_load rt))
        end
    end.
Proof.
  unfold Model.loadAndPredict, Model.load. async_unfold.
  destruct (model rt) as [m|]; [done|].
  by destruct (loadLayersModel world _).
Qed.

(** Run alone, the two segments of a call make up [loadAndPredict]. *)
Lemma run_alone_loadAndPredict text rt :
  Model.run_alone D world text rt =
    (let '(rt', r) := Model.loadAndPredict D world text rt in
     (rt', Model.Settled r)).
Proof.
  unfold Model.run_alone, Model.begin, Model.resume.
  rewrite loadAndPredict_cases.
  destruct (model rt) as [m|].
  - by destruct (Model.predict_text D text rt).
  - by destruct (loadLayersModel world _).
Qed.

(** Once the model is set, no call loads again. *)
Lemma loadAndPredict_no_reload text rt m :
  rt.(model) = Some m →
  (Model.loadAndPredict D world text rt).1.(loadCalls) = rt.(loadCalls)
  ∧ (Model.loadAndPredict D world text rt).1.(model) = Some m.
Proof.
  intros Hm. rewrite loadAndPredict_cases, Hm, predict_text_cases, Hm.
  by destruct (predict m _).
Qed.

Lemma YouTube_check_cases text rt :
  YouTubeComments.checkToxicityWithModel D world text rt =
    match Model.loadAndPredict D world text rt with
    | (rt', Resolved toxicityScore) =>
        (rt', Resolved {| isToxic := (50 <? toxicityScore)%float;
                          toxicityScore := toxicityScore |})
    | (rt', Rejected _) =>
        (rt', Resolved {| isToxic := YouTubeComments.checkToxicityFallback text;
                          toxicityScore := 0 |})
    end.
Proof.
  unfold YouTubeComments.checkToxicityWithModel. async_unfold.
  by destruct (Model.loadAndPredict D world text rt) as [rt' [score|reason]].
Qed.

Lemma App_check_cases app text rt :
  App.checkToxicityWithModel D world app text rt =
    if app.(App.model) then
      match Model.loadAndPredict D world text rt with
      | (rt', Resolved toxicityScore) =>
          (rt', Resolved {| isToxic := (50 <? toxicityScore)%float;
                            toxicityScore := toxicityScore |})
      | (rt', Rejected _) =>
          (rt', Resolved {| isToxic := App.checkToxicityFallback text;
                            toxicityScore := 0 |})
      end
    else
      (rt, Resolved {| isToxic := App.checkToxicityFallback text;
                       toxicityScore := 0 |}).
Proof.
  unfold App.checkToxicityWithModel. async_unfold.
  destruct (App.model app); simpl; [|done].
  by destruct (Model.loadAndPredict D world text rt) as [rt' [score|reason]].
Qed.

Lemma YouTube_check_resolves text rt :
  ∃ rt' r, YouTubeComments.checkToxicityWithModel D world text rt = (rt', Resolved r).
Proof.
  rewrite YouTube_check_cases.
  destruct (Model.loadAndPredict D world text rt) as [rt' [score|reason]]; eauto.
Qed.

Lemma App_check_resolves app text rt :
  ∃ rt' r, App.checkToxicityWithModel D world app text rt = (rt', Resolved r).
Proof.
  rewrite App_check_cases. destruct (App.model app); [|eauto].
  destruct (Model.loadAndPredict D world text rt) as [rt' [score|reason]]; eauto.
Qed.

End ClassifierFacts.

(** The two components carry the same word list and the same fallback. *)
Lemma fallback_same text :
  YouTubeComments.checkToxicityFallback text = App.checkToxicityFallback text.
Proof. reflexivity. Qed.

(** The fallback answers [true] exactly when some listed word occurs in the
    lower-cased text as a substring. *)
Lemma checkToxicityFallback_spec text :
  App.checkToxicityFallback text = true ↔
  ∃ word pre post,
    word ∈ App.TOXIC_WORDS ∧ toLowerCase text = pre +:+ word +:+ post.
Proof.
  unfold App.checkToxicityFallback. rewrite existsb_exists. split.
  - intros (word & Hin & Hinc). apply includes_spec in Hinc as (pre & post & H).
    exists word, pre, post. split; [by apply list_elem_of_In | done].
  - intros (word & pre & post & Hin & H). exists word.
    split; [by apply list_elem_of_In|]. apply includes_spec. by exists pre, post.
Qed.

(** ** Claims about the classifier *)

(** C1: for every input text, in both components, [checkToxicityWithModel]
    resolves with a result and never rejects; whenever [loadAndPredict]
    rejects (the load or the inference failed) the result is
    [{ isToxic: b, toxicityScore: 0 }] where [b] is true exactly when the
    lower-cased text contains an entry of the word list as a substring. *)
Theorem C1_classifier_never_rejects
    (D : Dictionary) (world : World) (text : string) (rt : Runtime) :
  (∃ rt' r,
     YouTubeComments.checkToxicityWithModel D world text rt = (rt', Resolved r))
  ∧ (∀ app, ∃ rt' r,
       App.checkToxicityWithModel D world app text rt = (rt', Resolved r))
  ∧ (∀ rt' reason,
       Model.loadAndPredict D world text rt = (rt', Rejected reason) →
       YouTubeComments.checkToxicityWithModel D world text rt
         = (rt', Resolved {| isToxic := YouTubeComments.checkToxicityFallback text;
                             toxicityScore := 0 |})
       ∧ ∀ app,
           (App.checkToxicityWithModel D world app text rt).2
             = Resolved {| isToxic := App.checkToxicityFallback text;
                           toxicityScore := 0 |})
  ∧ (YouTubeComments.checkToxicityFallback text = App.checkToxicityFallback text)
  ∧ (App.checkToxicityFallback text = true ↔
       ∃ word pre post,
         word ∈ App.TOXIC_WORDS ∧ toLowerCase text = pre +:+ word +:+ post).
Proof.
  split_and!.
  - apply YouTube_check_resolves.
  - intros app. apply App_check_resolves.
  - intros rt' reason Hrej. split.
    + by rewrite YouTube_check_cases, Hrej.
    + intros app. rewrite App_check_cases, Hrej. by destruct (App.model app).
  - apply fallback_same.
  - apply checkToxicityFallback_spec.
Qed.

(** C4: whenever [loadAndPredict] resolves, the model returned an output
    vector, the score is the value at index 1 of that vector times 100,
    and [isToxic] is the strict comparison [50 < score]; a score of exactly
    50 gives [isToxic = false]. *)
Theorem C4_score_is_index_1_times_100
    (D : Dictionary) (world : World) (text : string) (rt rt' : Runtime)
    (score : float) :
  Model.loadAndPredict D world text rt = (rt', Resolved score) →
  (∃ m dataArray,
     rt'.(model) = Some m
     ∧ m.(predict) (encode D text) = Resolved dataArray
     ∧ score = (nth 1 dataArray nan * 100)%float)
  ∧ YouTubeComments.checkToxicityWithModel D world text rt
      = (rt', Resolved {| isToxic := (50 <? score)%float; toxicityScore := score |})
  ∧ (∀ app, app.(App.model) = true →
       App.checkToxicityWithModel D world app text rt
         = (rt', Resolved {| isToxic := (50 <? score)%float;
                             toxicityScore := score |}))
  ∧ (score = 50%float → (50 <? score)%float = false).
Proof.
  intros Hrun. split_and!.
  - rewrite loadAndPredict_cases in Hrun.
    assert (Hpredict : ∀ r0 m0, model r0 = Some m0 →
              Model.predict_text D text r0 = (rt', Resolved score) →
              ∃ m dataArray, model rt' = Some m
                ∧ predict m (encode D text) = Resolved dataArray
                ∧ score = (nth 1 dataArray nan * 100)%float).
    { intros r0 m0 Hm0 H. rewrite predict_text_cases, Hm0 in H.
      destruct (predict m0 (encode D text)) as [dataArray|] eqn:E; [|done].
      injection H as <- <-. by exists m0, dataArray. }
    destruct (model rt) as [m|] eqn:Hm; [by eapply Hpredict|].
    destruct (loadLayersModel world (loadCalls rt)) as [m|]; [|done].
    by apply (Hpredict (set_model m (count_load rt)) m).
  - by rewrite YouTube_check_cases, Hrun.
  - intros app Happ. by rewrite App_check_cases, Happ, Hrun.
  - by intros ->.
Qed.

(** A model that answers probability 0.5 gives the score 50, not toxic. *)
Lemma C4_witness :
  Model.loadAndPredict Examples.dictionary
    (Examples.online (Examples.constant_model [0.5; 0.5]%float)) "x" initial
  = ({| model := Some (Examples.constant_model [0.5; 0.5]%float);
        loadCalls := 1; numTensors := 2 |}, Resolved 50%float)
  ∧ YouTubeComments.checkToxicityWithModel Examples.dictionary
      (Examples.online (Examples.constant_model [0.5; 0.5]%float)) "x" initial
    = ({| model := Some (Examples.constant_model [0.5; 0.5]%float);
          loadCalls := 1; numTensors := 2 |},
       Resolved {| isToxic := false; toxicityScore := 50 |}).
Proof.
  assert (H : Model.loadAndPredict Examples.dictionary
      (Examples.online (Examples.constant_model [0.5; 0.5]%float)) "x" initial
    = ({| model := Some (Examples.constant_model [0.5; 0.5]%float);
          loadCalls := 1; numTensors := 2 |}, Resolved 50%float))
    by (vm_compute; reflexivity).
  split; [exact H|].
  exact (proj1 (proj2 (C4_score_is_index_1_times_100 _ _ _ _ _ _ H))).
Defined.

(** With distinct control tokens and ids disjoint from them, as the data
    model requires, the encoding of the empty text is never START followed
    by twenty PADs. *)
Lemma encode_empty_not_all_pad (D : Dictionary) :
  D.(UNKNOWN) ≠ D.(PAD) →
  (∀ w id, D.(LOOKUP) !! w = Some id → id ≠ D.(PAD)) →
  encode D "" ≠ D.(START) :: replicate 20 D.(PAD).
Proof.
  intros Hunk Hids. unfold encode. rewrite tokenize_spec. simpl.
  unfold token. intros [= H].
  destruct (LOOKUP D !! "") as [id|] eqn:E; [by eapply Hids | done].
Qed.

(** C5, where the code departs from the claim: the empty text splits into
    one empty word, which takes the second place of the encoding. *)
Lemma C5_counterexample :
  encode Examples.dictionary ""
    = [1; 2; 0; 0; 0; 0; 0; 0; 0; 0; 0; 0; 0; 0; 0; 0; 0; 0; 0; 0; 0]%Z
  ∧ encode Examples.dictionary ""
    ≠ Examples.dictionary.(START) :: replicate 20 Examples.dictionary.(PAD).
Proof. split; [by vm_compute | by vm_compute]. Qed.

(** C5, amended: for the empty text the word array is the single empty
    word, so the encoding is START, then the token of the empty word
    (UNKNOWN when the table has no entry for it), then nineteen PADs; and
    classification of the empty text when [loadAndPredict] rejects, or
    when the component has no model, resolves with
    [{ isToxic: false, toxicityScore: 0 }]. *)
Theorem C5_empty_text (D : Dictionary) (world : World) (rt : Runtime) :
  words "" = [""]
  ∧ encode D "" = D.(START) :: token D "" :: replicate 19 D.(PAD)
  ∧ (D.(LOOKUP) !! "" = None →
       encode D "" = D.(START) :: D.(UNKNOWN) :: replicate 19 D.(PAD))
  ∧ (∀ rt' reason,
       Model.loadAndPredict D world "" rt = (rt', Rejected reason) →
       YouTubeComments.checkToxicityWithModel D world "" rt
         = (rt', Resolved {| isToxic := false; toxicityScore := 0 |})
       ∧ ∀ app,
           (App.checkToxicityWithModel D world app "" rt).2
             = Resolved {| isToxic := false; toxicityScore := 0 |})
  ∧ (∀ app, app.(App.model) = false →
       App.checkToxicityWithModel D world app "" rt
         = (rt, Resolved {| isToxic := false; toxicityScore := 0 |})).
Proof.
  assert (Henc : encode D "" = D.(START) :: token D "" :: replicate 19 D.(PAD))
    by (unfold encode; by rewrite tokenize_spec).
  split_and!.
  - done.
  - exact Henc.
  - intros Hnone. rewrite Henc. unfold token. by rewrite Hnone.
  - intros rt' reason Hrej. split.
    + by rewrite YouTube_check_cases, Hrej.
    + intros app. rewrite App_check_cases, Hrej. by destruct (App.model app).
  - intros app Happ. by rewrite App_check_cases, Happ.
Qed.

(** ** Tensors *)

Section TensorFacts.
Variable D : Dictionary.
Variable world : World.

Lemma predict_text_counters text rt :
  (Model.predict_text D text rt).1.(loadCalls) = rt.(loadCalls)
  ∧ (Model.predict_text D text rt).1.(model) = rt.(model)
  ∧ (Model.predict_text D text rt).1.(numTensors)
      = rt.(numTensors)
        + match (Model.predict_text D text rt).2 with
          | Resolved _ => 2
          | Rejected _ => 1
          end.
Proof.
  rewrite predict_text_cases.
  destruct (model rt) as [m|] eqn:Hm; simpl.
  - destruct (predict m _); simpl; rewrite ?Hm; split_and!; try done; lia.
  - rewrite Hm. split_and!; try done; lia.
Qed.

(** What one call adds to the live tensors. *)
Lemma loadAndPredict_tensors text rt :
  (Model.loadAndPredict D world text rt).1.(numTensors)
    = rt.(numTensors)
      + match (Model.loadAndPredict D world text rt).2 with
        | Resolved _ => 2
        | Rejected _ =>
            match (Model.loadAndPredict D world text rt).1.(model) with
            | Some _ => 1
            | None => 0
            end
        end.
Proof.
  rewrite loadAndPredict_cases.
  destruct (model rt) as [m|] eqn:Hm.
  - destruct (predict_text_counters text rt) as (_ & Hmodel & Htensors).
    rewrite Htensors, Hmodel, Hm.
    by destruct (Model.predict_text D text rt).2.
  - destruct (loadLayersModel world (loadCalls rt)) as [m|]; simpl.
    + destruct (predict_text_counters text (set_model m (count_load rt)))
        as (_ & Hmodel & Htensors).
      rewrite Htensors, Hmodel. simpl.
      by destruct (Model.predict_text D text _).2.
    + rewrite Hm. lia.
Qed.

Lemma predict_each_tensors texts rt :
  (∀ r, r ∈ (Model.predict_each D world texts rt).2 → ∃ score, r = Resolved score) →
  (Model.predict_each D world texts rt).1.(numTensors)
    = rt.(numTensors) + 2 * length texts.
Proof.
  revert rt; induction texts as [|t texts IH]; intros rt Hall; simpl in *.
  - lia.
  - pose proof (loadAndPredict_tensors t rt) as Hone.
    destruct (Model.loadAndPredict D world t rt) as [rt1 r1] eqn:E1.
    specialize (IH rt1).
    destruct (Model.predict_each D world texts rt1) as [rt2 rs] eqn:E2.
    simpl in *.
    destruct (Hall r1) as [score ->]; [by left|].
    rewrite IH, Hone; [lia|].
    intros r Hr. apply Hall. by right.
Qed.

End TensorFacts.

(** C9, where the code departs from the claim: after one successful call
    that started with no live tensor, two tensors are live. *)
Lemma C9_counterexample :
  Model.loadAndPredict Examples.dictionary
    (Examples.online (Examples.constant_model [0.75; 0.25]%float)) "hello" initial
  = ({| model := Some (Examples.constant_model [0.75; 0.25]%float);
        loadCalls := 1; numTensors := 2 |}, Resolved 25%float)
  ∧ (Model.loadAndPredict Examples.dictionary
       (Examples.online (Examples.constant_model [0.75; 0.25]%float)) "hello"
       initial).1.(numTensors) ≠ initial.(numTensors).
Proof. split; by vm_compute. Qed.

(** C9, amended: a call of [loadAndPredict] releases no tensor.  The input
    tensor made by [tokenize] and the output tensor made by [predict] stay
    live after the output values are read: a call that resolves leaves two
    more live tensors, a call whose inference throws leaves one (the
    input), a call whose load fails makes none; so the live tensors grow
    by two with every successful call. *)
Theorem C9_tensors_stay_live
    (D : Dictionary) (world : World) (text : string) (rt : Runtime) :
  (∀ rt' score,
     Model.loadAndPredict D world text rt = (rt', Resolved score) →
     rt'.(numTensors) = rt.(numTensors) + 2)
  ∧ (∀ rt' reason,
       Model.loadAndPredict D world text rt = (rt', Rejected reason) →
       rt'.(numTensors)
         = rt.(numTensors) + match rt'.(model) with Some _ => 1 | None => 0 end)
  ∧ rt.(numTensors) ≤ (Model.loadAndPredict D world text rt).1.(numTensors)
  ∧ (∀ texts,
       (∀ r, r ∈ (Model.predict_each D world texts rt).2 →
             ∃ score, r = Resolved score) →
       (Model.predict_each D world texts rt).1.(numTensors)
         = rt.(numTensors) + 2 * length texts).
Proof.
  pose proof (loadAndPredict_tensors D world text rt) as H.
  split_and!.
  - intros rt' score E. by rewrite E in H.
  - intros rt' reason E. by rewrite E in H.
  - lia.
  - intros texts. apply predict_each_tensors.
Qed.

(** ** Loading *)

Section LoadFacts.
Variable D : Dictionary.
Variable world : World.

(** Calls made one after the other load once when the first load succeeds. *)
Lemma sequential_calls_load_once texts rt m :
  rt.(model) = Some m →
  (Model.predict_each D world texts rt).1.(loadCalls) = rt.(loadCalls).
Proof.
  revert rt; induction texts as [|t texts IH]; intros rt Hm; simpl; [done|].
  destruct (loadAndPredict_no_reload D world t rt m Hm) as [Hcalls Hmodel].
  destruct (Model.loadAndPredict D world t rt) as [rt1 r1].
  specialize (IH rt1 Hmodel).
  destruct (Model.predict_each D world texts rt1) as [rt2 rs].
  simpl in *. congruence.
Qed.

(** In [App.tsx] a component without the model flag classifies by the
    fallback and leaves the runtime alone: no load is attempted. *)
Lemma App_without_model_never_loads app text rt :
  app.(App.model) = false →
  App.checkToxicityWithModel D world app text rt
    = (rt, Resolved {| isToxic := App.checkToxicityFallback text;
                       toxicityScore := 0 |}).
Proof. intros H. by rewrite App_check_cases, H. Qed.

(** [loadModel] sets the flag only when the trial classification resolved. *)
Lemma App_loadModel_failure app rt rt' reason :
  world.(ready) = Resolved tt →
  Model.loadAndPredict D world "test" rt = (rt', Rejected reason) →
  ∃ app', App.loadModel D world app rt = (rt', Resolved app')
          ∧ app'.(App.model) = app.(App.model)
          ∧ is_Some app'.(App.modelError).
Proof.
  intros Hready Hrun. unfold App.loadModel. async_unfold.
  rewrite Hready, Hrun. eexists. split_and!; [done | done | by eexists].
Qed.

End LoadFacts.

(** C7, as the code runs: two calls in flight each find [model] undefined
    and each call [tf.loadLayersModel]; both settle, after two loads.  The
    same holds for two calls in a row when the load fails. *)
Theorem C7_two_calls_two_loads (D : Dictionary) (m : LayersModel) (a b : string) :
  (∃ rt' ra rb,
     Model.steps D (Examples.online m)
       (initial, [Model.Called a; Model.Called b])
       (rt', [Model.Settled ra; Model.Settled rb])
     ∧ rt'.(loadCalls) = 2)
  ∧ (Model.predict_each D Examples.offline [a; b] initial).1.(loadCalls) = 2.
Proof.
  split; [|by vm_compute].
  destruct (Model.predict_text D a
              (set_model m (count_load (count_load initial)))) as [rt1 ra] eqn:Ea.
  destruct (Model.predict_text D b (set_model m rt1)) as [rt2 rb] eqn:Eb.
  exists rt2, ra, rb. split.
  - eapply Model.steps_step.
    { eapply (Model.step_begin _ _ _ _ _ 0 a); [done | reflexivity]. }
    eapply Model.steps_step.
    { eapply (Model.step_begin _ _ _ _ _ 1 b); [done | reflexivity]. }
    eapply Model.steps_step.
    { eapply (Model.step_resume _ _ _ _ _ 0 a 0); [done|].
      unfold Model.resume. simpl. by rewrite Ea. }
    eapply Model.steps_step.
    { eapply (Model.step_resume _ _ _ _ _ 1 b 1); [done|].
      unfold Model.resume. simpl. by rewrite Eb. }
    apply Model.steps_refl.
  - pose proof (predict_text_counters D b (set_model m rt1)) as [Hb _].
    pose proof (predict_text_counters D a
                  (set_model m (count_load (count_load initial)))) as [Ha _].
    rewrite Eb in Hb. rewrite Ea in Ha. simpl in *. congruence.
Qed.

(** C8, as the code runs: the load fails on mount and [App.tsx] records it;
    a later classification from the comments page calls the load again
    and, the load now succeeding, answers from the model and not from the
    fallback; with the artifact never loading, a batch of three comments
    makes three load attempts. *)
Theorem C8_batch_path_loads_again :
  App.loadModel Examples.dictionary
    (Examples.flaky (Examples.constant_model [0.75; 0.25]%float))
    App.mounted initial
  = ({| model := None; loadCalls := 1; numTensors := 0 |},
     Resolved {| App.model := false; App.modelLoading := false;
                 App.modelError := Some "Failed to load custom TensorFlow model. Using fallback detection." |})
  ∧ YouTubeComments.checkToxicityWithModel Examples.dictionary
      (Examples.flaky (Examples.constant_model [0.75; 0.25]%float))
      "i will kill you"
      {| model := None; loadCalls := 1; numTensors := 0 |}
    = ({| model := Some (Examples.constant_model [0.75; 0.25]%float);
          loadCalls := 2; numTensors := 2 |},
       Resolved {| isToxic := false; toxicityScore := 25 |})
  ∧ YouTubeComments.checkToxicityFallback "i will kill you" = true
  ∧ (YouTubeComments.loadComments Examples.dictionary Examples.offline
       (Resolved [Examples.comment_of "one"; Examples.comment_of "two";
                  Examples.comment_of "three"])
       ({| model := None; loadCalls := 1; numTensors := 0 |},
        YouTubeComments.first_render)).1.1.(loadCalls) = 4.
Proof. split_and!; by vm_compute. Qed.

(** ** The batch analyzer *)

Section BatchFacts.
Import YouTubeComments.
Variable D : Dictionary.
Variable world : World.

Lemma classify_all_cons c rest rt :
  ∃ rt1 r,
    checkToxicityWithModel D world c.(text) rt = (rt1, Resolved r)
    ∧ classify_all D world (c :: rest) rt
        = ((classify_all D world rest rt1).1,
           r :: (classify_all D world rest rt1).2).
Proof.
  destruct (YouTube_check_resolves D world c.(text) rt) as (rt1 & r & E).
  exists rt1, r. split; [done|]. simpl. rewrite E.
  by destruct (classify_all D world rest rt1).
Qed.

Lemma classify_all_length todo rt :
  length (classify_all D world todo rt).2 = length todo.
Proof.
  revert rt; induction todo as [|c rest IH]; intros rt; [done|].
  destruct (classify_all_cons c rest rt) as (rt1 & r & _ & ->).
  simpl. by rewrite IH.
Qed.

Lemma snapshot_at pre todo pre_rs rs :
  length pre = length pre_rs →
  snapshot (pre ++ todo) (pre_rs ++ rs) (length pre)
    = zip_with analyzed pre pre_rs ++ map pending todo.
Proof.
  intros Hlen. unfold snapshot.
  rewrite take_app_length, drop_app_length, Hlen, take_app_length. done.
Qed.

Lemma snapshot_lookup items results k j c r :
  length results = length items →
  items !! j = Some c → results !! j = Some r →
  snapshot items results k !! j
    = Some (if decide (j < k) then analyzed c r else pending c).
Proof.
  intros Hlen Hc Hr. unfold snapshot.
  pose proof (lookup_lt_Some _ _ _ Hc) as Hj.
  destruct (decide (j < k)) as [Hlt|Hge].
  - rewrite lookup_app_l.
    2:{ rewrite length_zip_with, !length_take. lia. }
    rewrite lookup_zip_with, !lookup_take_lt by done. by rewrite Hc, Hr.
  - rewrite lookup_app_r; rewrite length_zip_with, !length_take; [|lia].
    rewrite list_lookup_fmap, lookup_drop.
    replace (k + (j - (k `min` length items) `min` (k `min` length results)))
      with j by lia.
    by rewrite Hc.
Qed.

(** The loop, from any point of the iteration: [pre] are the items already
    analyzed, with results [pre_rs]. *)
Lemma for_of_spec todo : ∀ pre pre_rs rt p,
  length pre = length pre_rs →
  for_of D world (pre ++ todo) todo (zip_with analyzed pre pre_rs) (rt, p)
  = (((classify_all D world todo rt).1,
      {| comments :=
           match todo with
           | [] => p.(comments)
           | _ => snapshot (pre ++ todo)
                    (pre_rs ++ (classify_all D world todo rt).2)
                    (length (pre ++ todo))
           end;
         loading := p.(loading);
         error := p.(error);
         trace := p.(trace)
           ++ concat (imap (λ j r,
                        round (pre ++ todo)
                          (pre_rs ++ (classify_all D world todo rt).2)
                          (length pre + j) r)
                      (classify_all D world todo rt).2) |}),
     Resolved (zip_with analyzed (pre ++ todo)
                 (pre_rs ++ (classify_all D world todo rt).2))).
Proof.
  induction todo as [|c rest IH]; intros pre pre_rs rt p Hlen.
  - simpl. rewrite !app_nil_r. by destruct p.
  - destruct (classify_all_cons c rest rt) as (rt1 & r & E & ->).
    cbn [for_of]. async_unfold. unfold on_page. async_unfold. simpl. rewrite E.
    assert (Hlen' : length (pre ++ [c]) = length (pre_rs ++ [r]))
      by (rewrite !length_app; simpl; lia).
    assert (Hacc : zip_with analyzed pre pre_rs ++ [analyzed c r]
                   = zip_with analyzed (pre ++ [c]) (pre_rs ++ [r]))
      by (by rewrite zip_with_app).
    rewrite Hacc.
    replace (pre ++ c :: rest) with ((pre ++ [c]) ++ rest)
      by (by rewrite <- app_assoc).
    rewrite (IH (pre ++ [c]) (pre_rs ++ [r]) rt1 _ Hlen').
    replace ((pre_rs ++ [r]) ++ (classify_all D world rest rt1).2)
      with (pre_rs ++ r :: (classify_all D world rest rt1).2)
      by (by rewrite <- app_assoc).
    set (rs := (classify_all D world rest rt1).2).
    set (items := (pre ++ [c]) ++ rest).
    set (results := pre_rs ++ r :: rs).
    assert (Hsnap : zip_with analyzed (pre ++ [c]) (pre_rs ++ [r])
              ++ map pending
                   (drop (length (zip_with analyzed (pre ++ [c]) (pre_rs ++ [r])))
                      items)
            = snapshot items results (S (length pre))).
    { subst items results.
      replace (pre_rs ++ r :: rs) with ((pre_rs ++ [r]) ++ rs)
        by (by rewrite <- app_assoc).
      replace (S (length pre)) with (length (pre ++ [c]))
        by (rewrite length_app; simpl; lia).
      rewrite snapshot_at by done.
      rewrite length_zip_with, <- Hlen', Nat.min_id, drop_app_length. done. }
    f_equal. f_equal. f_equal.
    + destruct rest as [|c' rest']; [|done].
      simpl. rewrite Hsnap. f_equal.
      subst items. rewrite !length_app. simpl. lia.
    + simpl. rewrite <- !app_assoc. simpl.
      rewrite length_zip_with, <- Hlen, Nat.min_id, Hsnap.
      unfold round at 2. rewrite Nat.add_0_r. simpl.
      do 5 f_equal. apply imap_ext. intros j x _.
      rewrite length_app. unfold round. simpl.
      by replace (length pre + 1 + j) with (length pre + S j) by lia.
Qed.

End BatchFacts.

Section BatchRun.
Import YouTubeComments.
Variable D : Dictionary.
Variable world : World.

Lemma snapshot_length items results k :
  length results = length items →
  length (snapshot items results k) = length items.
Proof.
  intros Hlen. unfold snapshot.
  rewrite length_app, length_zip_with, !length_take, length_map, length_drop.
  lia.
Qed.

Lemma snapshot_all items results :
  length results = length items →
  snapshot items results (length items) = zip_with analyzed items results.
Proof.
  intros Hlen. unfold snapshot.
  rewrite drop_all, app_nil_r, firstn_all, <- Hlen, firstn_all. done.
Qed.

Lemma emitted_app l1 l2 : emitted (l1 ++ l2) = emitted l1 ++ emitted l2.
Proof. apply omap_app. Qed.

Lemma emitted_rounds items results rs : ∀ off,
  emitted (concat (imap (λ j r, round items results (off + j) r) rs))
    = map (snapshot items results) (seq (S off) (length rs)).
Proof.
  induction rs as [|r rs IH]; intros off; [done|].
  rewrite imap_cons. simpl. rewrite Nat.add_0_r. f_equal.
  rewrite <- IH. do 2 f_equal. apply imap_ext. intros j x _.
  simpl. by replace (off + S j) with (S (off + j)) by lia.
Qed.

Lemma emitted_all_rounds items results rs :
  emitted (concat (imap (round items results) rs))
    = map (snapshot items results) (seq 1 (length rs)).
Proof. exact (emitted_rounds items results rs 0). Qed.

(** [loadComments] over fetched items, in closed form. *)
Lemma loadComments_spec items rt p :
  loadComments D world (Resolved items) (rt, p)
  = (((classify_all D world items rt).1,
      {| comments := snapshot items (classify_all D world items rt).2 (length items);
         loading := false;
         error := p.(error);
         trace := p.(trace)
           ++ SetComments (snapshot items (classify_all D world items rt).2 0)
              :: concat (imap (round items (classify_all D world items rt).2)
                           (classify_all D world items rt).2) |}),
     Resolved tt).
Proof.
  unfold loadComments. async_unfold. unfold on_page. async_unfold. simpl.
  pose proof (for_of_spec D world items [] []
                rt (setComments (map pending items) (setLoading true p)) eq_refl) as H.
  simpl in H. rewrite H. simpl. do 2 f_equal.
  unfold setLoading. simpl. f_equal.
  - by destruct items.
  - by rewrite <- app_assoc.
Qed.

End BatchRun.

(** C3, where the code departs from the claim: a batch of two items hands
    three lists to [setComments] and the empty batch hands one, the list of
    all-pending items coming before any item is analyzed. *)
Lemma C3_counterexample :
  length (YouTubeComments.emitted
            (YouTubeComments.loadComments Examples.dictionary Examples.offline
               (Resolved [Examples.comment_of "nice video";
                          Examples.comment_of "I will kill you"])
               (initial, YouTubeComments.first_render)).1.2.(YouTubeComments.trace))
    = 3
  ∧ length (YouTubeComments.emitted
              (YouTubeComments.loadComments Examples.dictionary Examples.offline
                 (Resolved [])
                 (initial, YouTubeComments.first_render)).1.2.(YouTubeComments.trace))
    = 1
  ∧ 3 ≠ length [Examples.comment_of "nice video";
                Examples.comment_of "I will kill you"]
  ∧ 1 ≠ length ([] : list YouTubeComments.YouTubeComment).
Proof. split_and!; by vm_compute. Qed.

(** C3, amended: for every sequence of n items the batch analyzer settles
    without error; the items are classified one after the other in input
    order, the call for an item starting after the result of the item
    before it (the record of events is, after the first list of
    all-pending items, for each index k in turn: start of k, end of k,
    snapshot); it hands exactly n + 1 lists to [setComments], the
    all-pending list first and then one after each item: list k, for k
    from 0 to n, has the first k items with their results and
    [isAnalyzing = false] and the others pending with [isAnalyzing = true]
    and no score; in the final list no item is being analyzed. *)
Theorem C3_batch_is_sequential
    (D : Dictionary) (world : World)
    (items : list YouTubeComments.YouTubeComment)
    (rt : Runtime) (p : YouTubeComments.Page) :
  let n := length items in
  let results := (YouTubeComments.classify_all D world items rt).2 in
  let end_state := YouTubeComments.loadComments D world (Resolved items) (rt, p) in
  end_state.2 = Resolved tt
  ∧ end_state.1.1 = (YouTubeComments.classify_all D world items rt).1
  ∧ length results = n
  ∧ end_state.1.2.(YouTubeComments.trace)
      = p.(YouTubeComments.trace)
        ++ YouTubeComments.SetComments (map YouTubeComments.pending items)
           :: concat (imap (λ k r,
                        [ YouTubeComments.ClassifyStart k;
                          YouTubeComments.ClassifyEnd k r;
                          YouTubeComments.SetComments
                            (YouTubeComments.snapshot items results (S k)) ])
                      results)
  ∧ YouTubeComments.emitted end_state.1.2.(YouTubeComments.trace)
      = YouTubeComments.emitted p.(YouTubeComments.trace)
        ++ map YouTubeComments.pending items
           :: map (YouTubeComments.snapshot items results) (seq 1 n)
  ∧ (∀ k j c r,
       items !! j = Some c → results !! j = Some r →
       YouTubeComments.snapshot items results k !! j
         = Some (if decide (j < k)
                 then {| YouTubeComments.comment := c;
                         YouTubeComments.isToxic := r.(isToxic);
                         YouTubeComments.toxicityScore := Some r.(toxicityScore);
                         YouTubeComments.isAnalyzing := Some false |}
                 else {| YouTubeComments.comment := c;
                         YouTubeComments.isToxic := false;
                         YouTubeComments.toxicityScore := None;
                         YouTubeComments.isAnalyzing := Some true |}))
  ∧ (∀ k, length (YouTubeComments.snapshot items results k) = n)
  ∧ end_state.1.2.(YouTubeComments.comments)
      = YouTubeComments.snapshot items results n
  ∧ Forall (λ a, a.(YouTubeComments.isAnalyzing) = Some false)
      end_state.1.2.(YouTubeComments.comments)
  ∧ drop (length (YouTubeComments.emitted p.(YouTubeComments.trace)))
      (YouTubeComments.emitted end_state.1.2.(YouTubeComments.trace))
      = map (YouTubeComments.snapshot items results) (seq 0 (S n))
  ∧ length (YouTubeComments.emitted end_state.1.2.(YouTubeComments.trace))
      = length (YouTubeComments.emitted p.(YouTubeComments.trace)) + S n.
Proof.
  intros n results end_state.
  assert (Hlen : length results = length items)
    by apply classify_all_length.
  assert (Hemitted :
    YouTubeComments.emitted
      (YouTubeComments.loadComments D world (Resolved items) (rt, p)).1.2.(YouTubeComments.trace)
    = YouTubeComments.emitted p.(YouTubeComments.trace)
      ++ map (YouTubeComments.snapshot items results) (seq 0 (S n))).
  { rewrite loadComments_spec. fold results. simpl.
    rewrite emitted_app. simpl. do 2 f_equal.
    subst n. rewrite <- Hlen. apply emitted_all_rounds. }
  subst end_state. rewrite Hemitted.
  rewrite loadComments_spec. fold results. simpl.
  split_and!; try done.
  - intros k j c r Hc Hr. by apply snapshot_lookup.
  - intros k. by apply snapshot_length.
  - subst n. rewrite snapshot_all by done.
    apply Forall_forall. intros a Ha.
    apply elem_of_lookup_zip_with in Ha as (i & c & r & -> & _ & _). done.
  - by rewrite drop_app_length.
  - rewrite length_app. simpl. by rewrite length_map, length_seq.
Qed.

(** C10: in every list the batch analyzer hands to [setComments], the
    first one included, every item not yet analyzed is pending, with
    [isToxic = false] and [isAnalyzing = true]: each such list is the
    snapshot at some k, its items from index k on are pending, and any
    item of it that is not marked analyzed is not marked toxic. *)
Theorem C10_unanalyzed_items_not_toxic
    (D : Dictionary) (world : World)
    (items : list YouTubeComments.YouTubeComment)
    (rt : Runtime) (p : YouTubeComments.Page) :
  let results := (YouTubeComments.classify_all D world items rt).2 in
  let end_state := YouTubeComments.loadComments D world (Resolved items) (rt, p) in
  (∀ s,
     s ∈ drop (length (YouTubeComments.emitted p.(YouTubeComments.trace)))
           (YouTubeComments.emitted end_state.1.2.(YouTubeComments.trace)) →
     (∃ k, k ≤ length items ∧ s = YouTubeComments.snapshot items results k)
     ∧ ∀ a, a ∈ s →
         a.(YouTubeComments.isAnalyzing) ≠ Some false →
         a.(YouTubeComments.isAnalyzing) = Some true
         ∧ a.(YouTubeComments.isToxic) = false
         ∧ a.(YouTubeComments.toxicityScore) = None)
  ∧ (∀ k j c,
       k ≤ j → items !! j = Some c →
       ∃ a, YouTubeComments.snapshot items results k !! j = Some a
            ∧ a.(YouTubeComments.comment) = c
            ∧ a.(YouTubeComments.isToxic) = false
            ∧ a.(YouTubeComments.isAnalyzing) = Some true).
Proof.
  intros results end_state.
  assert (Hlen : length results = length items)
    by apply classify_all_length.
  assert (Hpending : ∀ k a, a ∈ YouTubeComments.snapshot items results k →
            a.(YouTubeComments.isAnalyzing) ≠ Some false →
            a.(YouTubeComments.isAnalyzing) = Some true
            ∧ a.(YouTubeComments.isToxic) = false
            ∧ a.(YouTubeComments.toxicityScore) = None).
  { intros k a Ha Hnot. unfold YouTubeComments.snapshot in Ha.
    apply elem_of_app in Ha as [Ha|Ha].
    - apply elem_of_lookup_zip_with in Ha as (i & c & r & -> & _ & _). done.
    - apply list_elem_of_fmap in Ha as (c & -> & _). done. }
  split.
  - intros s Hs. subst end_state. rewrite loadComments_spec in Hs.
    fold results in Hs. simpl in Hs.
    rewrite emitted_app, drop_app_length in Hs. simpl in Hs.
    rewrite emitted_all_rounds, Hlen in Hs.
    change (map YouTubeComments.pending items)
      with (YouTubeComments.snapshot items results 0) in Hs.
    apply elem_of_cons in Hs as [->|Hs].
    + split; [exists 0; split; [lia | done] | apply Hpending].
    + apply list_elem_of_fmap in Hs as (k & -> & Hk). apply elem_of_seq in Hk.
      split; [exists k; split; [lia | done] | apply Hpending].
  - intros k j c Hkj Hc.
    destruct (lookup_lt_is_Some_2 results j) as [r Hr].
    { rewrite Hlen. by eapply lookup_lt_Some. }
    exists (YouTubeComments.pending c). split; [|done].
    rewrite (snapshot_lookup items results k j c r Hlen Hc Hr).
    destruct (decide (j < k)); [lia | done].
Qed.

(** ** The claims at concrete inputs *)

(** With the artifact never loading, "This is STUPID" is classified by the
    fallback: the lower-cased text contains "stupid". *)
Lemma C1_witness :
  YouTubeComments.checkToxicityWithModel Examples.dictionary Examples.offline
    "This is STUPID" initial
  = ({| model := None; loadCalls := 1; numTensors := 0 |},
     Resolved {| isToxic := true; toxicityScore := 0 |}).
Proof.
  destruct (C1_classifier_never_rejects Examples.dictionary Examples.offline
              "This is STUPID" initial) as (_ & _ & H & _).
  destruct (H {| model := None; loadCalls := 1; numTensors := 0 |}
              "model.json: fetch failed") as [Hyt _]; [reflexivity|].
  rewrite Hyt. reflexivity.
Defined.

(** With the artifact never loading, the empty text is classified as not
    toxic with score 0. *)
Lemma C5_witness :
  YouTubeComments.checkToxicityWithModel Examples.dictionary Examples.offline
    "" initial
  = ({| model := None; loadCalls := 1; numTensors := 0 |},
     Resolved {| isToxic := false; toxicityScore := 0 |}).
Proof.
  destruct (C5_empty_text Examples.dictionary Examples.offline initial)
    as (_ & _ & _ & H & _).
  destruct (H {| model := None; loadCalls := 1; numTensors := 0 |}
              "model.json: fetch failed") as [Hyt _]; [reflexivity|].
  exact Hyt.
Defined.

(** Three successful calls in a row leave six live tensors. *)
Lemma C9_witness :
  (Model.predict_each Examples.dictionary
     (Examples.online (Examples.constant_model [0.75; 0.25]%float))
     ["one"; "two"; "three"] initial).1.(numTensors) = 0 + 2 * 3.
Proof.
  destruct (C9_tensors_stay_live Examples.dictionary
              (Examples.online (Examples.constant_model [0.75; 0.25]%float))
              "one" initial) as (_ & _ & _ & H).
  apply (H ["one"; "two"; "three"]).
  intros r Hr. exists 25%float.
  vm_compute in Hr.
  repeat (apply elem_of_cons in Hr as [->|Hr]; [reflexivity|]).
  by apply elem_of_nil in Hr.
Defined.

(** A batch of two comments with the artifact never loading: both are
    classified by the fallback, in order, and the page ends with no item
    being analyzed. *)
Lemma C3_witness :
  (YouTubeComments.loadComments Examples.dictionary Examples.offline
     (Resolved [Examples.comment_of "nice video"; Examples.comment_of "I will kill you"])
     (initial, YouTubeComments.first_render)).1.2.(YouTubeComments.comments)
  = [ {| YouTubeComments.comment := Examples.comment_of "nice video";
         YouTubeComments.isToxic := false;
         YouTubeComments.toxicityScore := Some 0%float;
         YouTubeComments.isAnalyzing := Some false |};
      {| YouTubeComments.comment := Examples.comment_of "I will kill you";
         YouTubeComments.isToxic := true;
         YouTubeComments.toxicityScore := Some 0%float;
         YouTubeComments.isAnalyzing := Some false |} ].
Proof.
  destruct (C3_batch_is_sequential Examples.dictionary Examples.offline
              [Examples.comment_of "nice video"; Examples.comment_of "I will kill you"]
              initial YouTubeComments.first_render)
    as (_ & _ & _ & _ & _ & _ & _ & H & _).
  rewrite H. reflexivity.
Defined.


(** * Further properties of the code *)

(** ** model.js *)

Section NormalizeFacts.

Lemma lower_char_idempotent c : lower_char (lower_char c) = lower_char c.
Proof. destruct c as [[] [] [] [] [] [] [] []]; by vm_compute. Qed.

Lemma blank_char_idempotent c : blank_char (blank_char c) = blank_char c.
Proof. destruct c as [[] [] [] [] [] [] [] []]; by vm_compute. Qed.

Lemma lower_blank_lower c :
  lower_char (blank_char (lower_char c)) = blank_char (lower_char c).
Proof. destruct c as [[] [] [] [] [] [] [] []]; by vm_compute. Qed.

Lemma map_chars_compose f g s :
  map_chars f (map_chars g s) = map_chars (λ c, f (g c)) s.
Proof. induction s as [|c r IH]; simpl; [done | by rewrite IH]. Qed.

Lemma map_chars_ext f g s :
  (∀ c, f c = g c) → map_chars f s = map_chars g s.
Proof. intros H. induction s as [|c r IH]; simpl; [done | by rewrite H, IH]. Qed.

Lemma map_chars_append f s t :
  map_chars f (s +:+ t) = map_chars f s +:+ map_chars f t.
Proof. induction s as [|c r IH]; simpl; [done | by rewrite IH]. Qed.

Lemma toLowerCase_idempotent s : toLowerCase (toLowerCase s) = toLowerCase s.
Proof.
  unfold toLowerCase. rewrite map_chars_compose.
  apply map_chars_ext, lower_char_idempotent.
Qed.

Lemma normalize_toLowerCase s : normalize (toLowerCase s) = normalize s.
Proof. unfold normalize. by rewrite toLowerCase_idempotent. Qed.

Lemma normalize_idempotent s : normalize (normalize s) = normalize s.
Proof.
  unfold normalize, replace_non_word, toLowerCase.
  rewrite !map_chars_compose. apply map_chars_ext. intros c.
  by rewrite lower_blank_lower, blank_char_idempotent.
Qed.

End NormalizeFacts.

(** X1: [tokenize] pads but never truncates: its result has
    max(21, 1 + n) entries for n words, and for 20 words or more it is
    START followed by one token per word with no PAD. *)
Theorem tokenize_never_truncates (D : Dictionary) (wordArray : list string) :
  length (tokenize D wordArray) = 21 `max` S (length wordArray)
  ∧ (20 ≤ length wordArray →
       tokenize D wordArray = D.(START) :: map (token D) wordArray).
Proof.
  rewrite tokenize_spec. split.
  - simpl. rewrite length_app, length_map, length_replicate. lia.
  - intros H. replace (20 - length wordArray) with 0 by lia.
    simpl. by rewrite app_nil_r.
Qed.

Lemma tokenize_never_truncates_witness :
  tokenize Examples.dictionary (replicate 25 "you")
  = 1%Z :: replicate 25 5%Z.
Proof.
  rewrite (proj2 (tokenize_never_truncates Examples.dictionary
                    (replicate 25 "you"))); [reflexivity|].
  rewrite length_replicate. lia.
Defined.

(** Two texts with the same normal form are scored alike. *)
Lemma loadAndPredict_same_normal_form
    (D : Dictionary) (world : World) (a b : string) (rt : Runtime) :
  normalize a = normalize b →
  Model.loadAndPredict D world a rt = Model.loadAndPredict D world b rt.
Proof.
  intros Hab.
  assert (Hp : ∀ r, Model.predict_text D a r = Model.predict_text D b r).
  { intros r. rewrite !predict_text_cases.
    unfold encode, first_words, words. by rewrite Hab. }
  rewrite !loadAndPredict_cases.
  destruct (model rt); [apply Hp|].
  destruct (loadLayersModel world (loadCalls rt)); [apply Hp | done].
Qed.

(** X2: the score does not depend on letter case or on punctuation: the
    text, its lower-cased form and its normalized form (every character
    outside [\w] and [\s] replaced by a space) are scored alike, with the
    same effect on the runtime. *)
Theorem loadAndPredict_normalized
    (D : Dictionary) (world : World) (text : string) (rt : Runtime) :
  Model.loadAndPredict D world (toLowerCase text) rt
    = Model.loadAndPredict D world text rt
  ∧ Model.loadAndPredict D world (normalize text) rt
    = Model.loadAndPredict D world text rt.
Proof.
  split; apply loadAndPredict_same_normal_form.
  - apply normalize_toLowerCase.
  - apply normalize_idempotent.
Qed.

(** X3: classification as a whole ignores letter case: in both components
    [checkToxicityWithModel] answers the same for a text and for its
    lower-cased form, on the model path and on the fallback path. *)
Theorem checkToxicityWithModel_ignores_case
    (D : Dictionary) (world : World) (text : string) (rt : Runtime) :
  YouTubeComments.checkToxicityWithModel D world (toLowerCase text) rt
    = YouTubeComments.checkToxicityWithModel D world text rt
  ∧ (∀ app,
       App.checkToxicityWithModel D world app (toLowerCase text) rt
         = App.checkToxicityWithModel D world app text rt).
Proof.
  assert (Hf : App.checkToxicityFallback (toLowerCase text)
               = App.checkToxicityFallback text).
  { unfold App.checkToxicityFallback. by rewrite toLowerCase_idempotent. }
  pose proof (loadAndPredict_same_normal_form D world (toLowerCase text) text rt
                (normalize_toLowerCase text)) as Hl.
  split.
  - rewrite !YouTube_check_cases, Hl, !fallback_same, Hf. done.
  - intros app. rewrite !App_check_cases, Hl, Hf. done.
Qed.

(** X4: the fallback is closed under embedding: if a text is flagged by
    the word list, every text that contains it is flagged too. *)
Theorem fallback_monotone (text pre post : string) :
  App.checkToxicityFallback text = true →
  App.checkToxicityFallback (pre +:+ text +:+ post) = true.
Proof.
  rewrite !checkToxicityFallback_spec.
  intros (word & a & b & Hin & Heq).
  exists word, (toLowerCase pre +:+ a), (b +:+ toLowerCase post).
  split; [done|]. unfold toLowerCase in *.
  rewrite !map_chars_append, Heq.
  apply chars_inj. rewrite !chars_append. by rewrite <- !app_assoc.
Qed.

Lemma fallback_monotone_witness :
  App.checkToxicityFallback ("my " +:+ "SKILLS" +:+ " are fine") = true.
Proof. apply fallback_monotone. reflexivity. Defined.

(** X5: [loadAndPredict] rejects exactly when the load it has to make
    rejects or the inference of the model in use throws, and it passes the
    reason on unchanged; otherwise it resolves. *)
Theorem loadAndPredict_rejects_iff
    (D : Dictionary) (world : World) (text : string) (rt : Runtime)
    (reason : string) :
  (Model.loadAndPredict D world text rt).2 = Rejected reason ↔
  match rt.(model) with
  | Some m => m.(predict) (encode D text) = Rejected reason
  | None =>
      world.(loadLayersModel) rt.(loadCalls) = Rejected reason
      ∨ ∃ m, world.(loadLayersModel) rt.(loadCalls) = Resolved m
             ∧ m.(predict) (encode D text) = Rejected reason
  end.
Proof.
  rewrite loadAndPredict_cases.
  destruct (model rt) as [m|] eqn:Hm.
  - rewrite predict_text_cases, Hm.
    destruct (predict m (encode D text)); simpl; split; congruence.
  - destruct (loadLayersModel world (loadCalls rt)) as [m|r] eqn:Hl.
    + rewrite predict_text_cases. simpl.
      destruct (predict m (encode D text)) eqn:Hp; simpl; split.
      * done.
      * intros [?|(m' & [= <-] & ?)]; congruence.
      * intros [= ->]. right. by exists m.
      * intros [?|(m' & [= <-] & ?)]; congruence.
    + simpl. split; [intros [= ->]; by left|].
      intros [?|(m' & ? & _)]; congruence.
Qed.

(** X6: an output vector with fewer than two values gives the score NaN:
    the classifier resolves with [isToxic = false] and a NaN score, and
    does not fall back to the word list. *)
Theorem short_output_scores_nan
    (D : Dictionary) (world : World) (text : string) (rt : Runtime)
    (m : LayersModel) (dataArray : list float) :
  rt.(model) = Some m →
  m.(predict) (encode D text) = Resolved dataArray →
  length dataArray ≤ 1 →
  YouTubeComments.checkToxicityWithModel D world text rt
    = (new_tensor (new_tensor rt),
       Resolved {| isToxic := false; toxicityScore := nan |}).
Proof.
  intros Hm Hp Hlen.
  rewrite YouTube_check_cases, loadAndPredict_cases, Hm, predict_text_cases, Hm, Hp.
  assert (Hnth : nth 1 dataArray nan = nan).
  { destruct dataArray as [|x [|y l]]; simpl in *; [done | done | lia]. }
  rewrite Hnth. reflexivity.
Qed.

Lemma short_output_scores_nan_witness :
  YouTubeComments.checkToxicityWithModel Examples.dictionary Examples.offline
    "I will kill you"
    {| model := Some (Examples.constant_model [0.875%float]);
       loadCalls := 1; numTensors := 0 |}
  = ({| model := Some (Examples.constant_model [0.875%float]);
        loadCalls := 1; numTensors := 2 |},
     Resolved {| isToxic := false; toxicityScore := nan |}).
Proof.
  apply (short_output_scores_nan Examples.dictionary Examples.offline
           "I will kill you"
           {| model := Some (Examples.constant_model [0.875%float]);
              loadCalls := 1; numTensors := 0 |}
           (Examples.constant_model [0.875%float]) [0.875%float]);
    [reflexivity | reflexivity | simpl; lia].
Defined.

(** ** Calls in flight *)

Section InterleavingFacts.
Import Flight.
Variable D : Dictionary.
Variable world : World.

Lemma not_started_insert calls i c c' :
  calls !! i = Some c →
  not_started (<[i := c']> calls) + (if is_called c then 1 else 0)
    = not_started calls + (if is_called c' then 1 else 0).
Proof.
  intros Hi. pose proof (lookup_lt_Some _ _ _ Hi) as Hlt.
  rewrite <- (take_drop_middle calls i c Hi) at 2.
  rewrite insert_take_drop by done. unfold not_started.
  rewrite !List.filter_app, !length_app. simpl.
  destruct (is_called c), (is_called c'); simpl; lia.
Qed.

Lemma step_counts s1 s2 :
  Model.step D world s1 s2 →
  s2.1.(loadCalls) + not_started s2.2 ≤ s1.1.(loadCalls) + not_started s1.2
  ∧ s1.1.(loadCalls) ≤ s2.1.(loadCalls)
  ∧ (is_Some s1.1.(model) →
       is_Some s2.1.(model) ∧ s2.1.(loadCalls) = s1.1.(loadCalls)).
Proof.
  intros [rt rt' calls i t c' Hi Hb | rt rt' calls i t k c' Hi Hr]; simpl.
  - pose proof (not_started_insert calls i _ c' Hi) as Hn. simpl in Hn.
    unfold Model.begin in Hb.
    destruct (model rt) as [m|] eqn:Hm.
    + pose proof (predict_text_counters D t rt) as (Hc & Hmod & _).
      destruct (Model.predict_text D t rt) as [rt1 r]. injection Hb as <- <-.
      simpl in *. rewrite Hc, Hmod, Hm. split_and!; [lia | lia |].
      intros _. split; [by eexists | done].
    + injection Hb as <- <-. simpl in *. split_and!; [lia | lia |].
      by intros [? ?].
  - pose proof (not_started_insert calls i _ c' Hi) as Hn. simpl in Hn.
    unfold Model.resume in Hr.
    destruct (loadLayersModel world k) as [m|reason].
    + pose proof (predict_text_counters D t (set_model m rt)) as (Hc & Hmod & _).
      destruct (Model.predict_text D t (set_model m rt)) as [rt1 r].
      injection Hr as <- <-. simpl in *. rewrite Hc, Hmod.
      split_and!; [lia | lia |]. intros _. split; [by eexists | done].
    + injection Hr as <- <-. simpl in *. split_and!; [lia | lia | done].
Qed.

End InterleavingFacts.

(** X7: however the calls in flight interleave, each call makes at most
    one load: the loads made from a state on never exceed the calls that
    had not started in it.  And once [model] is set it stays set and no
    step loads again. *)
Theorem loads_bounded_by_calls
    (D : Dictionary) (world : World)
    (s1 s2 : Runtime * list Model.Call) :
  Model.steps D world s1 s2 →
  s1.1.(loadCalls) ≤ s2.1.(loadCalls)
  ∧ s2.1.(loadCalls) ≤ s1.1.(loadCalls) + Flight.not_started s1.2
  ∧ (is_Some s1.1.(model) →
       is_Some s2.1.(model) ∧ s2.1.(loadCalls) = s1.1.(loadCalls)).
Proof.
  induction 1 as [s | s1 s2 s3 Hstep _ IH].
  - split_and!; [lia | lia | done].
  - destruct (step_counts D world s1 s2 Hstep) as (H1 & H2 & H3).
    destruct IH as (I1 & I2 & I3).
    split_and!; [lia | lia |].
    intros Hs. destruct (H3 Hs) as [Hs2 E2]. destruct (I3 Hs2) as [Hs3 E3].
    split; [done | congruence].
Qed.

Lemma loads_bounded_by_calls_witness :
  ∃ rt', Model.steps Examples.dictionary
           (Examples.online (Examples.constant_model [0.75; 0.25]%float))
           (initial, [Model.Called "a"; Model.Called "b"])
           (rt', [Model.AwaitingLoad "a" 0; Model.AwaitingLoad "b" 1])
         ∧ rt'.(loadCalls) ≤ 0 + 2.
Proof.
  exists (count_load (count_load initial)).
  assert (Hrun : Model.steps Examples.dictionary
           (Examples.online (Examples.constant_model [0.75; 0.25]%float))
           (initial, [Model.Called "a"; Model.Called "b"])
           (count_load (count_load initial),
            [Model.AwaitingLoad "a" 0; Model.AwaitingLoad "b" 1])).
  { eapply Model.steps_step.
    { eapply (Model.step_begin _ _ _ _ _ 0 "a"); reflexivity. }
    eapply Model.steps_step.
    { eapply (Model.step_begin _ _ _ _ _ 1 "b"); reflexivity. }
    apply Model.steps_refl. }
  split; [exact Hrun|].
  exact (proj1 (proj2 (loads_bounded_by_calls _ _ _ _ Hrun))).
Defined.

(** ** App.tsx: submitting a text *)

Section SubmitFacts.
Import Submit.

Lemma trimStart_empty_iff s :
  trimStart s = EmptyString ↔ Forall (λ c, is_space_char c = true) (chars s).
Proof.
  induction s as [|c r IH]; simpl.
  - split; [constructor | done].
  - destruct (is_space_char c) eqn:E.
    + rewrite IH. split; [by constructor | by inversion 1].
    + split; [done | inversion 1; congruence].
Qed.

Lemma trimStart_head s c r :
  trimStart s = String c r → is_space_char c = false.
Proof.
  induction s as [|d t IH]; simpl; [done|].
  destruct (is_space_char d) eqn:E; [done | by intros [= <- _]].
Qed.

Lemma trimEnd_nonempty c r :
  is_space_char c = false → trimEnd (String c r) ≠ EmptyString.
Proof. intros E. simpl. rewrite E. by destruct (trimEnd r). Qed.

(** [trim] gives the empty string exactly on the texts made of white space. *)
Lemma truthy_trim_iff s :
  truthy (trim s) = false ↔ Forall (λ c, is_space_char c = true) (chars s).
Proof.
  rewrite <- trimStart_empty_iff. unfold trim.
  destruct (trimStart s) as [|c r] eqn:E; [done|].
  pose proof (trimEnd_nonempty c r (trimStart_head s c r E)) as Hne.
  destruct (trimEnd (String c r)); [done | split; done].
Qed.

End SubmitFacts.

Section SubmitRuns.
Variable D : Dictionary.
Variable world : World.

Lemma handleSubmit_blank_run app now today rt form :
  Submit.truthy (Submit.trim form.(Submit.inputText)) = false →
  Submit.handleSubmit D world app now today (rt, form)
    = ((rt, form), Resolved tt).
Proof.
  intros Hblank.
  unfold Submit.handleSubmit. async_unfold. simpl. by rewrite Hblank.
Qed.

Lemma handleSubmit_entry_run app now today rt form rt' result :
  Submit.truthy (Submit.trim form.(Submit.inputText)) = true →
  App.checkToxicityWithModel D world app form.(Submit.inputText) rt
    = (rt', Resolved result) →
  Submit.handleSubmit D world app now today (rt, form)
    = ((rt',
        {| Submit.inputText := "";
           Submit.searchHistory :=
             {| Submit.id := now;
                Submit.text := form.(Submit.inputText);
                Submit.isToxic := result.(isToxic);
                Submit.timestamp := today;
                Submit.toxicityScore := Some result.(toxicityScore) |}
             :: form.(Submit.searchHistory);
           Submit.isAnalyzing := false |}),
       Resolved tt).
Proof.
  intros Ht Hcheck.
  unfold Submit.handleSubmit. async_unfold. unfold Submit.on_form. async_unfold.
  simpl. rewrite Ht. simpl. rewrite Hcheck. reflexivity.
Qed.

End SubmitRuns.

(** X8: submitting a text made only of white space (or the empty text)
    does nothing: no classification runs, the runtime, the history, the
    input and the analyzing flag are unchanged, and nothing is thrown. *)
Theorem handleSubmit_blank
    (D : Dictionary) (world : World) (app : App.AppState) (now today : Z)
    (rt : Runtime) (form : Submit.Form) :
  Forall (λ c, is_space_char c = true) (chars form.(Submit.inputText)) →
  Submit.handleSubmit D world app now today (rt, form)
    = ((rt, form), Resolved tt).
Proof.
  intros Hblank. apply truthy_trim_iff in Hblank.
  by apply handleSubmit_blank_run.
Qed.

Lemma handleSubmit_blank_witness :
  Submit.handleSubmit Examples.dictionary Examples.offline App.mounted 1 2
    (initial,
     {| Submit.inputText := "   "; Submit.searchHistory := [];
        Submit.isAnalyzing := false |})
  = ((initial,
      {| Submit.inputText := "   "; Submit.searchHistory := [];
         Submit.isAnalyzing := false |}), Resolved tt).
Proof.
  apply handleSubmit_blank. simpl.
  repeat constructor.
Defined.

(** X9: submitting a text with a character that is not white space always
    resolves and adds exactly one entry, in front of the history: the
    entry carries the text as typed, the result of
    [checkToxicityWithModel] and its score (the [catch] branch that builds
    an entry without score is never taken); the older entries are kept in
    order, the input is cleared and the analyzing flag is off. *)
Theorem handleSubmit_adds_one_entry
    (D : Dictionary) (world : World) (app : App.AppState) (now today : Z)
    (rt : Runtime) (form : Submit.Form) :
  ¬ Forall (λ c, is_space_char c = true) (chars form.(Submit.inputText)) →
  ∃ rt' result,
    App.checkToxicityWithModel D world app form.(Submit.inputText) rt
      = (rt', Resolved result)
    ∧ Submit.handleSubmit D world app now today (rt, form)
      = ((rt',
          {| Submit.inputText := "";
             Submit.searchHistory :=
               {| Submit.id := now;
                  Submit.text := form.(Submit.inputText);
                  Submit.isToxic := result.(isToxic);
                  Submit.timestamp := today;
                  Submit.toxicityScore := Some result.(toxicityScore) |}
               :: form.(Submit.searchHistory);
             Submit.isAnalyzing := false |}),
         Resolved tt).
Proof.
  intros Hnb.
  assert (Ht : Submit.truthy (Submit.trim form.(Submit.inputText)) = true).
  { destruct (Submit.truthy _) eqn:E; [done|].
    by apply truthy_trim_iff in E. }
  destruct (App_check_resolves D world app form.(Submit.inputText) rt)
    as (rt' & result & Hcheck).
  exists rt', result. split; [done|].
  by apply handleSubmit_entry_run.
Qed.

Lemma handleSubmit_adds_one_entry_witness :
  ∃ rt' result,
    App.checkToxicityWithModel Examples.dictionary Examples.offline App.mounted
      "you idiot" initial = (rt', Resolved result)
    ∧ Submit.handleSubmit Examples.dictionary Examples.offline App.mounted 1 2
        (initial,
         {| Submit.inputText := "you idiot"; Submit.searchHistory := [];
            Submit.isAnalyzing := false |})
      = ((rt',
          {| Submit.inputText := "";
             Submit.searchHistory :=
               [ {| Submit.id := 1; Submit.text := "you idiot";
                    Submit.isToxic := result.(isToxic);
                    Submit.timestamp := 2;
                    Submit.toxicityScore := Some result.(toxicityScore) |} ];
             Submit.isAnalyzing := false |}),
         Resolved tt).
Proof.
  apply (handleSubmit_adds_one_entry Examples.dictionary Examples.offline
           App.mounted 1 2 initial
           {| Submit.inputText := "you idiot"; Submit.searchHistory := [];
              Submit.isAnalyzing := false |}).
  simpl. intros H. inversion H as [|? ? Hy _]. discriminate Hy.
Defined.

Section AppModelFacts.
Variable D : Dictionary.
Variable world : World.

Lemma loadAndPredict_resolved_model text rt rt' score :
  Model.loadAndPredict D world text rt = (rt', Resolved score) →
  is_Some rt'.(model).
Proof.
  rewrite loadAndPredict_cases. intros H.
  assert (Hp : ∀ r, Model.predict_text D text r = (rt', Resolved score) →
                    is_Some rt'.(model)).
  { intros r Hr. pose proof (predict_text_counters D text r) as (_ & Hm & _).
    rewrite Hr in Hm. simpl in Hm. rewrite predict_text_cases in Hr.
    destruct (model r); [rewrite Hm; by eexists | done]. }
  destruct (model rt); [by eapply Hp|].
  destruct (loadLayersModel world (loadCalls rt)); [by eapply Hp | done].
Qed.

Lemma loadAndPredict_keeps_model text rt :
  is_Some rt.(model) →
  is_Some (Model.loadAndPredict D world text rt).1.(model)
  ∧ (Model.loadAndPredict D world text rt).1.(loadCalls) = rt.(loadCalls).
Proof.
  intros [m Hm].
  destruct (loadAndPredict_no_reload D world text rt m Hm) as [Hc Hmod].
  split; [rewrite Hmod; by eexists | done].
Qed.

End AppModelFacts.

(** X10: the effect run on mount never rejects and always ends the loading
    state; it sets the model flag only after a trial classification that
    resolved, so afterwards the flag is set only if the module variable
    [model] is. *)
Theorem loadModel_links_flag_to_model
    (D : Dictionary) (world : World) (app : App.AppState) (rt : Runtime) :
  AppModel.linked app rt →
  ∃ rt' app',
    App.loadModel D world app rt = (rt', Resolved app')
    ∧ app'.(App.modelLoading) = false
    ∧ AppModel.linked app' rt'
    ∧ (app'.(App.model) = true ∨ is_Some app'.(App.modelError)).
Proof.
  intros Hlinked. unfold App.loadModel. async_unfold.
  destruct (ready world) as [[]|reason].
  - destruct (Model.loadAndPredict D world "test" rt) as [rt' [score|reason]] eqn:E.
    + eexists _, _. split_and!; [done | done | | by left].
      intros _. by eapply loadAndPredict_resolved_model.
    + eexists _, _. split_and!; [done | done | | right; by eexists].
      simpl. intros Hflag.
      pose proof (loadAndPredict_keeps_model D world "test" rt (Hlinked Hflag)) as [H _].
      by rewrite E in H.
  - eexists _, _. split_and!; [done | done | done | right; by eexists].
Qed.

Lemma loadModel_links_flag_to_model_witness :
  ∃ rt' app',
    App.loadModel Examples.dictionary
      (Examples.online (Examples.constant_model [0.75; 0.25]%float))
      App.mounted initial = (rt', Resolved app')
    ∧ app'.(App.modelLoading) = false
    ∧ AppModel.linked app' rt'
    ∧ (app'.(App.model) = true ∨ is_Some app'.(App.modelError)).
Proof.
  apply loadModel_links_flag_to_model. intros H. discriminate H.
Defined.

(** X11: submitting a text never loads the model: when the flag is set only
    if the model is, [handleSubmit] leaves the number of calls of
    [tf.loadLayersModel] unchanged and keeps that link. *)
Theorem handleSubmit_never_loads
    (D : Dictionary) (world : World) (app : App.AppState) (now today : Z)
    (rt : Runtime) (form : Submit.Form) :
  AppModel.linked app rt →
  (Submit.handleSubmit D world app now today (rt, form)).1.1.(loadCalls)
    = rt.(loadCalls)
  ∧ AppModel.linked app
      (Submit.handleSubmit D world app now today (rt, form)).1.1.
Proof.
  intros Hlinked.
  destruct (Submit.truthy (Submit.trim form.(Submit.inputText))) eqn:Ht.
  2:{ by rewrite handleSubmit_blank_run. }
  - destruct (App_check_resolves D world app form.(Submit.inputText) rt)
      as (rt' & result & Hcheck).
    rewrite (handleSubmit_entry_run D world app now today rt form rt' result Ht Hcheck).
    simpl. rewrite App_check_cases in Hcheck.
    destruct (App.model app) eqn:Hflag.
    + pose proof (loadAndPredict_keeps_model D world form.(Submit.inputText) rt
                    (Hlinked Hflag)) as [Hm Hc].
      destruct (Model.loadAndPredict D world _ rt) as [rt1 [score|reason]];
        injection Hcheck as <- _; simpl in *; split; [done | by intros _ | done | by intros _].
    + injection Hcheck as <- _. split; [done|]. intros H. congruence.
Qed.

Lemma handleSubmit_never_loads_witness :
  (Submit.handleSubmit Examples.dictionary Examples.offline App.mounted 1 2
     (initial,
      {| Submit.inputText := "you idiot"; Submit.searchHistory := [];
         Submit.isAnalyzing := false |})).1.1.(loadCalls) = 0.
Proof.
  apply (handleSubmit_never_loads Examples.dictionary Examples.offline
           App.mounted 1 2 initial).
  intros H. discriminate H.
Defined.

(** ** YouTubeComments.tsx: what the page shows during a batch *)

Section ViewFacts.
Import YouTubeComments CommentsView.

Lemma toxic_analyzed xs : ∀ rs,
  length xs = length rs →
  length (List.filter (λ c, c.(isToxic)) (zip_with analyzed xs rs))
    = length (List.filter Js.isToxic rs).
Proof.
  induction xs as [|x xs IH]; intros [|r rs] Hlen; simpl in *; try done.
  destruct (Js.isToxic r); simpl; rewrite IH by lia; done.
Qed.

Lemma toxic_pending xs :
  List.filter (λ c, c.(isToxic)) (map pending xs) = [].
Proof. induction xs as [|x xs IH]; simpl; done. Qed.

Lemma toxicCount_snapshot items results k :
  length results = length items →
  toxicCount (snapshot items results k)
    = length (List.filter Js.isToxic (take k results)).
Proof.
  intros Hlen. unfold toxicCount, snapshot.
  rewrite List.filter_app, toxic_pending, app_nil_r.
  apply toxic_analyzed. rewrite !length_take. lia.
Qed.

Lemma filter_take_le {A} (f : A → bool) (l : list A) i j :
  i ≤ j → length (List.filter f (take i l)) ≤ length (List.filter f (take j l)).
Proof.
  intros Hij. replace j with (i + (j - i)) by lia.
  rewrite <- take_take_drop, List.filter_app, length_app. lia.
Qed.

Lemma shown_snapshots D world items rt p :
  drop (length (emitted p.(trace)))
    (emitted (loadComments D world (Resolved items) (rt, p)).1.2.(trace))
  = map (snapshot items (classify_all D world items rt).2)
      (seq 0 (S (length items))).
Proof.
  rewrite loadComments_spec. simpl.
  rewrite emitted_app, drop_app_length. simpl.
  by rewrite emitted_all_rounds, classify_all_length.
Qed.

End ViewFacts.

(** X12: during a batch the number shown in "... toxic comments found"
    counts the toxic results among the items analyzed so far: over the
    lists handed to [setComments] it starts at 0, never decreases, and
    ends at the number of toxic results. *)
Theorem toxic_count_never_decreases
    (D : Dictionary) (world : World)
    (items : list YouTubeComments.YouTubeComment)
    (rt : Runtime) (p : YouTubeComments.Page) :
  let results := (YouTubeComments.classify_all D world items rt).2 in
  let end_state := YouTubeComments.loadComments D world (Resolved items) (rt, p) in
  let counts :=
    map CommentsView.toxicCount
      (drop (length (YouTubeComments.emitted p.(YouTubeComments.trace)))
         (YouTubeComments.emitted end_state.1.2.(YouTubeComments.trace))) in
  counts = map (λ k, length (List.filter isToxic (take k results)))
             (seq 0 (S (length items)))
  ∧ counts !! 0 = Some 0
  ∧ (∀ i j a b, i ≤ j → counts !! i = Some a → counts !! j = Some b → a ≤ b)
  ∧ CommentsView.toxicCount end_state.1.2.(YouTubeComments.comments)
      = length (List.filter isToxic results).
Proof.
  intros results end_state counts.
  assert (Hlen : length results = length items) by apply classify_all_length.
  assert (Hcounts : counts
            = map (λ k, length (List.filter isToxic (take k results)))
                (seq 0 (S (length items)))).
  { subst counts end_state. rewrite shown_snapshots, map_map.
    apply map_ext. intros k. by apply toxicCount_snapshot. }
  split_and!.
  - exact Hcounts.
  - rewrite Hcounts. done.
  - rewrite Hcounts. intros i j a b Hij Ha Hb.
    apply list_lookup_fmap_Some in Ha as (ki & -> & Hi).
    apply list_lookup_fmap_Some in Hb as (kj & -> & Hj).
    apply lookup_seq in Hi as [-> _]. apply lookup_seq in Hj as [-> _].
    simpl. by apply filter_take_le.
  - subst end_state. rewrite loadComments_spec. simpl. fold results.
    rewrite toxicCount_snapshot by done.
    by rewrite <- Hlen, firstn_all.
Qed.

(** X13: the toxic-only view never shows an item that is still being
    analyzed: in every list handed to [setComments] during a batch, each
    item that passes the filter is analyzed and carries a score; with the
    filter off the list is shown as it is. *)
Theorem toxic_only_view_shows_analyzed_items
    (D : Dictionary) (world : World)
    (items : list YouTubeComments.YouTubeComment)
    (rt : Runtime) (p : YouTubeComments.Page) :
  let end_state := YouTubeComments.loadComments D world (Resolved items) (rt, p) in
  (∀ s a,
     s ∈ drop (length (YouTubeComments.emitted p.(YouTubeComments.trace)))
           (YouTubeComments.emitted end_state.1.2.(YouTubeComments.trace)) →
     a ∈ CommentsView.filteredComments true s →
     a ∈ s
     ∧ a.(YouTubeComments.isToxic) = true
     ∧ a.(YouTubeComments.isAnalyzing) = Some false
     ∧ is_Some a.(YouTubeComments.toxicityScore))
  ∧ (∀ s, CommentsView.filteredComments false s = s).
Proof.
  intros end_state. split; [|done].
  intros s a Hs Ha. subst end_state. rewrite shown_snapshots in Hs.
  apply list_elem_of_fmap in Hs as (k & -> & _).
  unfold CommentsView.filteredComments in Ha.
  apply list_elem_of_In, List.filter_In in Ha as [Hin Htoxic].
  apply list_elem_of_In in Hin. split; [done|]. split; [done|].
  unfold YouTubeComments.snapshot in Hin.
  apply elem_of_app in Hin as [Hin|Hin].
  - apply elem_of_lookup_zip_with in Hin as (i & c & r & -> & _ & _).
    split; [done | by eexists].
  - apply list_elem_of_fmap in Hin as (c & -> & _). done.
Qed.

(** ** services/youtube.ts: fetching the comments *)

Section FetchFacts.
Import Youtube Pages.
Variable server : Server.
Variable maxResults : Z.

Lemma comments_of_cons pg pages :
  comments_of (pg :: pages) = map to_comment pg.(items) ++ comments_of pages.
Proof. done. Qed.

Lemma token_after_cons tok pg pages :
  token_after tok (pg :: pages) = token_after pg.(nextPageToken) pages.
Proof.
  unfold token_after. rewrite last_cons. by destruct (last pages).
Qed.

(** More fuel does not change the result of a run that ended. *)
Lemma fetch_loop_more_fuel fuel : ∀ k acc tok r extra,
  fetch_loop server maxResults fuel k acc tok = Some r →
  fetch_loop server maxResults (fuel + extra) k acc tok = Some r.
Proof.
  induction fuel as [|fuel IH]; intros k acc tok r extra; simpl; [done|].
  destruct (server k (sent_token tok)) as [why|[] status statusText [data|why]];
    try done.
  destruct (truthy_token _ && _); [apply IH | done].
Qed.

Lemma fetch_loop_resolved fuel : ∀ k acc tok cs,
  fetch_loop server maxResults fuel k acc tok = Some (Resolved cs) →
  ∃ pages last,
    chain server k tok (pages ++ [last])
    ∧ cs = acc ++ comments_of (pages ++ [last])
    ∧ (truthy_token last.(nextPageToken) = false
       ∨ (maxResults ≤ Z.of_nat (length cs))%Z)
    ∧ Forall (λ pg, truthy_token pg.(nextPageToken) = true) pages
    ∧ (pages ≠ [] →
       (Z.of_nat (length (acc ++ comments_of pages)) < maxResults)%Z).
Proof.
  induction fuel as [|fuel IH]; intros k acc tok cs; simpl; [done|].
  destruct (server k (sent_token tok))
    as [why|[] status statusText [data|why]] eqn:Hserver; try done.
  destruct (truthy_token (nextPageToken data)) eqn:Htok; simpl.
  - destruct (Z.ltb_spec (Z.of_nat (length (acc ++ map to_comment (items data))))
                maxResults) as [Hlt|Hge].
    + intros Hrun. apply IH in Hrun as (pages & last & Hchain & -> & Hstop & Hall & Hbound).
      exists (data :: pages), last. split_and!.
      * simpl. split; [by eexists _, _ | done].
      * unfold comments_of. simpl. by rewrite <- app_assoc.
      * done.
      * by constructor.
      * intros _. rewrite comments_of_cons, app_assoc.
        destruct pages as [|pg pages]; [|by apply Hbound].
        unfold comments_of. simpl. by rewrite app_nil_r.
    + intros [= <-]. exists [], data. split_and!.
      * simpl. split; [by eexists _, _ | done].
      * unfold comments_of. simpl. by rewrite app_nil_r.
      * right. lia.
      * constructor.
      * done.
  - intros [= <-]. exists [], data. split_and!.
    + simpl. split; [by eexists _, _ | done].
    + unfold comments_of. simpl. by rewrite app_nil_r.
    + by left.
    + constructor.
    + done.
Qed.

Lemma fetch_loop_rejected fuel : ∀ k acc tok reason,
  fetch_loop server maxResults fuel k acc tok = Some (Rejected reason) →
  ∃ pages,
    chain server k tok pages
    ∧ Forall (λ pg, truthy_token pg.(nextPageToken) = true) pages
    ∧ fails_with
        (server (k + length pages) (sent_token (token_after tok pages)))
        reason.
Proof.
  induction fuel as [|fuel IH]; intros k acc tok reason; simpl; [done|].
  assert (Hnow : ∀ why, fails_with (server k (sent_token tok)) why →
            ∃ pages, chain server k tok pages
              ∧ Forall (λ pg, truthy_token pg.(nextPageToken) = true) pages
              ∧ fails_with
                  (server (k + length pages) (sent_token (token_after tok pages)))
                  why).
  { intros why Hwhy. exists []. split_and!; [done | constructor |].
    simpl. by rewrite Nat.add_0_r. }
  destruct (server k (sent_token tok))
    as [why|[] status statusText [data|why]] eqn:Hserver.
  - intros [= <-]. by apply Hnow.
  - destruct (truthy_token (nextPageToken data)) eqn:Htok; simpl; [|done].
    destruct (Z.of_nat _ <? maxResults)%Z; [|done].
    intros Hrun. apply IH in Hrun as (pages & Hchain & Hall & Hfail).
    exists (data :: pages). split_and!.
    + simpl. split; [by eexists _, _ | done].
    + by constructor.
    + rewrite token_after_cons. simpl.
      by replace (k + S (length pages)) with (S k + length pages) by lia.
  - intros [= <-]. by apply Hnow.
  - intros [= <-]. by apply Hnow.
  - intros [= <-]. by apply Hnow.
Qed.

Lemma fetch_loop_terminates fuel : ∀ k acc tok,
  (∀ k tok status statusText data,
     server k tok = Response true status statusText (Resolved data) →
     data.(items) ≠ []) →
  1 ≤ fuel →
  Z.to_nat (maxResults - Z.of_nat (length acc)) ≤ fuel →
  is_Some (fetch_loop server maxResults fuel k acc tok).
Proof.
  induction fuel as [|fuel IH]; intros k acc tok Hpages H1 Hfuel; [lia|].
  simpl.
  destruct (server k (sent_token tok))
    as [why|[] status statusText [data|why]] eqn:Hserver; try by eexists.
  destruct (truthy_token (nextPageToken data)); simpl; [|by eexists].
  destruct (Z.ltb_spec (Z.of_nat (length (acc ++ map to_comment (items data))))
              maxResults) as [Hlt|Hge]; [|by eexists].
  pose proof (Hpages _ _ _ _ _ Hserver) as Hne.
  assert (Hgrow : length acc < length (acc ++ map to_comment (items data))).
  { rewrite length_app, length_map. destruct (items data); [done | simpl; lia]. }
  apply IH; [done | lia | lia].
Qed.

End FetchFacts.

(** The first page is requested and kept whatever [maxResults] is: with
    [maxResults = 0] the two comments of the first page are returned. *)
Lemma fetch_first_page_whole_example :
  Youtube.fetchYouTubeComments PageExamples.two_pages 0 1
  = Some (Resolved (map Youtube.to_comment
                      [PageExamples.item "1" "first";
                       PageExamples.item "2" "second"])).
Proof. reflexivity. Qed.

(** X14: when the fetch resolves, its result is made of whole pages: the
    comments of consecutive successful requests, the first without a page
    token and each next one with the token of the page before, in order
    and with nothing cut off.  Every page but the last had a token and
    left the collection below [maxResults]; the last one had no token or
    reached [maxResults].  The first page is always requested and kept
    whole, so the result is below [max 1 maxResults] plus the size of its
    last page: it exceeds [maxResults] by less than the size of the last
    page when [maxResults] is positive or more than one page was fetched,
    and a single page is returned whole whatever [maxResults] is. *)
Theorem fetch_returns_whole_pages
    (server : Youtube.Server) (maxResults : Z) (fuel : nat)
    (comments : list YouTubeComments.YouTubeComment) :
  Youtube.fetchYouTubeComments server maxResults fuel = Some (Resolved comments) →
  ∃ pages last,
    Pages.chain server 0 None (pages ++ [last])
    ∧ comments = Pages.comments_of (pages ++ [last])
    ∧ Forall (λ pg, Youtube.truthy_token pg.(Youtube.nextPageToken) = true) pages
    ∧ (Youtube.truthy_token last.(Youtube.nextPageToken) = false
       ∨ (maxResults ≤ Z.of_nat (length comments))%Z)
    ∧ (pages ≠ [] →
       (Z.of_nat (length comments)
        < maxResults + Z.of_nat (length last.(Youtube.items)))%Z)
    ∧ (Z.of_nat (length comments)
       < Z.max 1 maxResults + Z.of_nat (length last.(Youtube.items)))%Z
    ∧ ((0 < maxResults)%Z →
       (Z.of_nat (length comments)
        < maxResults + Z.of_nat (length last.(Youtube.items)))%Z)
    ∧ (pages ≠ [] →
       (Z.of_nat (length (Pages.comments_of pages)) < maxResults)%Z)
    ∧ (pages = [] → comments = map Youtube.to_comment last.(Youtube.items))
    ∧ length comments
      = length (Pages.comments_of pages) + length last.(Youtube.items).
Proof.
  intros Hrun. apply fetch_loop_resolved in Hrun
    as (pages & last & Hchain & -> & Hstop & Hall & Hbound).
  simpl in *.
  assert (Hlen : length (Pages.comments_of (pages ++ [last]))
                 = length (Pages.comments_of pages) + length last.(Youtube.items)).
  { unfold Pages.comments_of. rewrite flat_map_app, length_app. simpl.
    by rewrite app_nil_r, length_map. }
  assert (Hmax : (Z.of_nat (length (Pages.comments_of pages)) < Z.max 1 maxResults)%Z).
  { destruct pages as [|pg pages]; [simpl; lia|].
    assert (pg :: pages ≠ []) as Hne by done. specialize (Hbound Hne). lia. }
  exists pages, last. split_and!; try done.
  - intros Hne. specialize (Hbound Hne). lia.
  - lia.
  - intros Hpos. lia.
  - intros ->. unfold Pages.comments_of. simpl. by rewrite app_nil_r.
Qed.

Lemma fetch_returns_whole_pages_witness :
  ∃ pages last,
    Pages.chain PageExamples.two_pages 0 None (pages ++ [last])
    ∧ map YouTubeComments.text (Pages.comments_of (pages ++ [last]))
      = ["first"; "second"; "third"]
    ∧ length pages = 1.
Proof.
  destruct (fetch_returns_whole_pages PageExamples.two_pages 3 2
              (map Youtube.to_comment
                 [PageExamples.item "1" "first"; PageExamples.item "2" "second";
                  PageExamples.item "3" "third"]) eq_refl)
    as (pages & last & Hchain & Hcs & Hall & _ & _).
  exists pages, last. split_and!; [done | by rewrite <- Hcs |].
  destruct pages as [|p1 [|p2 pages]]; simpl in *.
  - destruct Hchain as [(? & ? & Heq) _]. injection Heq as _ _ <-.
    simpl in Hcs. discriminate Hcs.
  - done.
  - destruct Hchain as [(? & ? & Heq1) [(? & ? & Heq2) _]].
    injection Heq1 as _ _ <-. simpl in Heq2. injection Heq2 as _ _ <-.
    inversion Hall as [|? ? _ Hall']. inversion Hall' as [|? ? Hno _].
    discriminate Hno.
Defined.

(** X15: when the fetch rejects, some request failed after a run of
    successful pages: the network failed, or the response was not [ok]
    (then the reason is "YouTube API error: " with the status and the
    status text), or its body did not parse.  The comments of the pages
    before it are not returned. *)
Theorem fetch_rejects_on_first_failure
    (server : Youtube.Server) (maxResults : Z) (fuel : nat) (reason : string) :
  Youtube.fetchYouTubeComments server maxResults fuel = Some (Rejected reason) →
  ∃ pages,
    Pages.chain server 0 None pages
    ∧ Forall (λ pg, Youtube.truthy_token pg.(Youtube.nextPageToken) = true) pages
    ∧ Pages.fails_with
        (server (length pages)
           (Youtube.sent_token (Pages.token_after None pages)))
        reason.
Proof.
  intros Hrun. by apply fetch_loop_rejected in Hrun.
Qed.

Lemma fetch_rejects_on_first_failure_witness :
  Youtube.fetchYouTubeComments PageExamples.quota_exceeded 100 5
    = Some (Rejected "YouTube API error: 403 Forbidden")
  ∧ ∃ pages,
      Pages.chain PageExamples.quota_exceeded 0 None pages
      ∧ Pages.fails_with
          (PageExamples.quota_exceeded (length pages)
             (Youtube.sent_token (Pages.token_after None pages)))
          "YouTube API error: 403 Forbidden".
Proof.
  split; [reflexivity|].
  destruct (fetch_rejects_on_first_failure PageExamples.quota_exceeded 100 5
              "YouTube API error: 403 Forbidden" eq_refl)
    as (pages & Hchain & _ & Hfail).
  by exists pages.
Defined.

(** X16: the loop ends when no successful page is empty: it then makes at
    most max(1, maxResults) requests, and a run that ended is not changed
    by allowing more requests.  (A server that keeps answering empty pages
    with a token keeps the loop going.) *)
Theorem fetch_terminates
    (server : Youtube.Server) (maxResults : Z) :
  (∀ k tok status statusText data,
     server k tok = Youtube.Response true status statusText (Resolved data) →
     data.(Youtube.items) ≠ []) →
  ∃ r,
    Youtube.fetchYouTubeComments server maxResults (1 `max` Z.to_nat maxResults)
      = Some r
    ∧ ∀ extra,
        Youtube.fetchYouTubeComments server maxResults
          ((1 `max` Z.to_nat maxResults) + extra) = Some r.
Proof.
  intros Hpages.
  destruct (fetch_loop_terminates server maxResults
              (1 `max` Z.to_nat maxResults) 0 [] None Hpages) as [r Hr];
    [lia | simpl; lia |].
  exists r. split; [done|].
  intros extra. by apply fetch_loop_more_fuel.
Qed.

Lemma fetch_terminates_witness :
  ∃ r, Youtube.fetchYouTubeComments PageExamples.two_pages 100 100 = Some r.
Proof.
  destruct (fetch_terminates PageExamples.two_pages 100) as (r & Hr & _).
  - intros k [t|] status statusText data [= _ _ <-]; done.
  - by exists r.
Defined.

(** X23: the loop has no bound of its own on the number of requests:
    against a server that answers every request with an empty page and a
    token, and with a positive [maxResults], it is still running after any
    number of requests. *)
Theorem fetch_can_run_forever
    (server : Youtube.Server) (maxResults : Z) (fuel : nat) :
  (∀ k tok, ∃ status statusText data,
     server k tok = Youtube.Response true status statusText (Resolved data)
     ∧ data.(Youtube.items) = []
     ∧ Youtube.truthy_token data.(Youtube.nextPageToken) = true) →
  (0 < maxResults)%Z →
  Youtube.fetchYouTubeComments server maxResults fuel = None.
Proof.
  intros Hserver Hmax. unfold Youtube.fetchYouTubeComments.
  generalize 0 (None : option string).
  induction fuel as [|fuel IH]; intros k tok; simpl; [done|].
  destruct (Hserver k (Youtube.sent_token tok))
    as (status & statusText & data & -> & Hitems & Htok).
  rewrite Hitems, Htok. simpl. change (Z.of_nat 0) with 0%Z.
  destruct (Z.ltb_spec 0 maxResults) as [_|]; [apply IH | lia].
Qed.

Lemma fetch_can_run_forever_witness :
  Youtube.fetchYouTubeComments
    (λ _ _, Youtube.Response true "200" "OK"
              (Resolved {| Youtube.items := [];
                           Youtube.nextPageToken := Some "again" |}))
    100 1000 = None.
Proof.
  apply fetch_can_run_forever; [|lia].
  intros k tok. by eexists _, _, _.
Defined.

(** X17: when the fetch rejects, [loadComments] does not throw and
    classifies nothing: the page keeps its comments, shows the fixed
    message in place of the reason, ends loading, hands no list to
    [setComments] and leaves the runtime untouched. *)
Theorem loadComments_after_failed_fetch
    (D : Dictionary) (world : World) (server : Youtube.Server) (fuel : nat)
    (reason : string) (rt : Runtime) (p : YouTubeComments.Page) :
  Youtube.fetchYouTubeComments server 100 fuel = Some (Rejected reason) →
  Pages.loadCommentsFrom D world server fuel (rt, p)
  = Some ((rt,
           {| YouTubeComments.comments := p.(YouTubeComments.comments);
              YouTubeComments.loading := false;
              YouTubeComments.error :=
                Some "Failed to load comments. Please try again.";
              YouTubeComments.trace := p.(YouTubeComments.trace) |}),
          Resolved tt).
Proof.
  intros Hfetch. unfold Pages.loadCommentsFrom. rewrite Hfetch.
  unfold YouTubeComments.loadComments. async_unfold.
  unfold YouTubeComments.on_page. async_unfold. reflexivity.
Qed.

Lemma loadComments_after_failed_fetch_witness :
  Pages.loadCommentsFrom Examples.dictionary Examples.offline
    PageExamples.quota_exceeded 5 (initial, YouTubeComments.first_render)
  = Some ((initial,
           {| YouTubeComments.comments := [];
              YouTubeComments.loading := false;
              YouTubeComments.error :=
                Some "Failed to load comments. Please try again.";
              YouTubeComments.trace := [] |}),
          Resolved tt).
Proof.
  exact (loadComments_after_failed_fetch Examples.dictionary Examples.offline
           PageExamples.quota_exceeded 5 "YouTube API error: 403 Forbidden"
           initial YouTubeComments.first_render eq_refl).
Defined.

(** ** Regular expressions *)

Section RegexFacts.
Import Regex UrlParts.

Lemma append_nil_r s : s +:+ EmptyString = s.
Proof. apply chars_inj. by rewrite chars_append, app_nil_r. Qed.

Lemma append_assoc' a b c : (a +:+ b) +:+ c = a +:+ (b +:+ c).
Proof. apply chars_inj. by rewrite !chars_append, app_assoc. Qed.

Lemma length_append' a b :
  String.length (a +:+ b) = String.length a + String.length b.
Proof. induction a as [|c a IH]; simpl; [done | by rewrite IH]. Qed.

Lemma substring_prefix a b :
  String.substring 0 (String.length a) (a +:+ b) = a.
Proof.
  induction a as [|c a IH]; simpl; [by destruct b | by rewrite IH].
Qed.

Lemma consumed_append a b : consumed (a +:+ b) b = a.
Proof.
  unfold consumed. rewrite length_append'.
  replace (String.length a + String.length b - String.length b)
    with (String.length a) by lia.
  apply substring_prefix.
Qed.

Lemma take_drop_while p s : s = take_while p s +:+ drop_while p s.
Proof.
  induction s as [|c r IH]; simpl; [done|].
  destruct (p c); [|reflexivity].
  change (String c r = String c (take_while p r +:+ drop_while p r)).
  by f_equal.
Qed.

Lemma take_while_all p s : Forall (λ c, p c = true) (chars (take_while p s)).
Proof.
  induction s as [|c r IH]; simpl; [constructor|].
  destruct (p c) eqn:E; simpl; [by constructor | constructor].
Qed.

Lemma take_while_id p s :
  Forall (λ c, p c = true) (chars s) → take_while p (s +:+ EmptyString) = s.
Proof.
  induction s as [|c r IH]; simpl; [done|].
  inversion 1 as [|? ? Hc Hr]; subst. by rewrite Hc, IH.
Qed.

Lemma take_while_stop p s c r :
  Forall (λ c, p c = true) (chars s) → p c = false →
  take_while p (s +:+ String c r) = s.
Proof.
  induction s as [|d t IH]; simpl; intros Hall Hc; [by rewrite Hc|].
  inversion Hall as [|? ? Hd Ht]; subst. by rewrite Hd, IH.
Qed.

Lemma skip_char_suffix c s : ∃ a, s = a +:+ skip_char c s.
Proof.
  destruct s as [|d r]; simpl; [by exists EmptyString|].
  destruct (Ascii.eqb d c); [by exists (String d EmptyString) | by exists EmptyString].
Qed.

Lemma strip_prefix_Some w : ∀ t t', strip_prefix w t = Some t' → t = w +:+ t'.
Proof.
  induction w as [|a w IH]; intros t t' H.
  - simpl in H. by injection H as ->.
  - destruct t as [|b t]; simpl in H; [done|].
    destruct (Ascii.eqb_spec b a) as [->|]; [|done].
    change (String a t = String a (w +:+ t')). f_equal. by apply IH.
Qed.

Section Exec.
Context {R : Type}.

(** A star in front of a continuation that always answers gives what the
    continuation answers after the longest run. *)
Lemma star_total p (f : string → R) s :
  star p s (λ t, Some (f t)) = Some (f (drop_while p s)).
Proof.
  induction s as [|c r IH]; simpl; [done|].
  destruct (p c); [by rewrite IH | done].
Qed.

(** A success of a star is a success of its continuation on a suffix. *)
Lemma star_success p s (k : string → option R) res :
  star p s k = Some res → ∃ pre s', s = pre +:+ s' ∧ k s' = Some res.
Proof.
  induction s as [|c r IH]; simpl.
  - intros H. by exists EmptyString, EmptyString.
  - destruct (p c).
    + destruct (star p r k) as [res'|] eqn:E.
      * intros [= <-]. destruct (IH eq_refl) as (pre & s' & -> & Hk).
        by exists (String c pre), s'.
      * intros H. by exists EmptyString, (String c r).
    + intros H. by exists EmptyString, (String c r).
Qed.

(** A star fails when its continuation fails on every suffix. *)
Lemma star_fail p (k : string → option R) (Q : string → Prop) s :
  (∀ c r, Q (String c r) → Q r) →
  (∀ t, Q t → k t = None) →
  Q s → star p s k = None.
Proof.
  intros Htail Hk. induction s as [|c r IH]; simpl; intros HQ; [by apply Hk|].
  rewrite (IH (Htail _ _ HQ)), (Hk _ HQ). by destruct (p c).
Qed.

(** A star reaches a success of its continuation past any run it can eat. *)
Lemma star_skip p (k : string → option R) a b res :
  Forall (λ c, p c = true) (chars a) →
  star p b k = Some res → star p (a +:+ b) k = Some res.
Proof.
  induction a as [|c a IH]; simpl; intros Hall Hb; [done|].
  inversion Hall as [|? ? Hc Ha]; subst. by rewrite Hc, (IH Ha Hb).
Qed.

Lemma exec_literal w : ∀ t caps (k : string → Captures → option R),
  exec (literal w) t caps k
  = match strip_prefix w t with
    | Some t' => k t' caps
    | None => None
    end.
Proof.
  induction w as [|a w IH]; intros t caps k; simpl; [done|].
  destruct t as [|b t]; [done|].
  destruct (Ascii.eqb b a); [apply IH | done].
Qed.

(** A success of a pattern is a success of its continuation on a suffix. *)
Lemma exec_success r : ∀ s caps (k : string → Captures → option R) res,
  exec r s caps k = Some res →
  ∃ pre s' caps', s = pre +:+ s' ∧ k s' caps' = Some res.
Proof.
  induction r as [|a|a|r1 IH1 r2 IH2|r1 IH1 r2 IH2|r1 IH1|n r1 IH1];
    intros s caps k res; simpl.
  - intros H. by exists EmptyString, s, caps.
  - destruct s as [|c s']; [done|]. destruct (atom_matches a c); [|done].
    intros H. by exists (String c EmptyString), s', caps.
  - intros H. apply star_success in H as (pre & s' & -> & Hk).
    by exists pre, s', caps.
  - intros H. apply IH1 in H as (pre1 & s1 & c1 & -> & H).
    apply IH2 in H as (pre2 & s2 & c2 & -> & H).
    exists (pre1 +:+ pre2), s2, c2. by rewrite append_assoc'.
  - destruct (exec r1 s caps k) eqn:E.
    + intros [= <-]. by apply IH1 in E.
    + apply IH2.
  - destruct (exec r1 s caps k) eqn:E.
    + intros [= <-]. by apply IH1 in E.
    + intros H. by exists EmptyString, s, caps.
  - intros H. apply IH1 in H as (pre & s' & c' & -> & H).
    by exists pre, s', (<[n := consumed (pre +:+ s') s']> c').
Qed.

End Exec.

End RegexFacts.

(** ** services/youtube.ts: the video id of a URL *)

Section VideoIdFacts.
Import Regex UrlParts VideoId.

Lemma star_ext {R} p s (k1 k2 : string → option R) :
  (∀ t, k1 t = k2 t) → star p s k1 = star p s k2.
Proof.
  intros H. induction s as [|c r IH]; simpl; [apply H|].
  by rewrite IH, H.
Qed.

Lemma opt_lit_total {R} c s caps (k : string → Captures → option R) g :
  (∀ t, k t caps = Some (g t)) →
  exec (Opt (At (Lit c))) s caps k = Some (g (skip_char c s)).
Proof.
  intros Hk. simpl. destruct s as [|d r]; simpl; [apply Hk|].
  destruct (Ascii.eqb d c); rewrite Hk; done.
Qed.

(** What follows the announcer always matches, and group 7 is the id. *)
Lemma id_part_exec s caps :
  exec id_part s caps (λ _ c, Some c) = Some (<[7 := id_after s]> caps).
Proof.
  assert (Hseq : ∀ r1 r2 t c (k : string → Captures → option Captures),
            exec (Seq r1 r2) t c k = exec r1 t c (λ s' c', exec r2 s' c' k))
    by reflexivity.
  assert (Htail : ∀ t, exec (Seq (Group 7 (Star (NoneOf ["#"; "&"; "?"]%char)))
                              (Star Dot)) t caps (λ _ c, Some c)
                  = Some (<[7 := take_while id_char t]> caps)).
  { intros t. cbn [exec].
    rewrite (star_ext _ _ _ (λ s', Some (<[7 := consumed t s']> caps))).
    2:{ intros s'. apply (star_total _ (λ _, <[7 := consumed t s']> caps)). }
    rewrite (star_total _ (λ s', <[7 := consumed t s']> caps)).
    do 2 f_equal. unfold id_char.
    rewrite (take_drop_while (atom_matches (NoneOf ["#"; "&"; "?"]%char)) t) at 1.
    apply consumed_append. }
  unfold id_part. rewrite Hseq.
  apply (opt_lit_total "?" s caps _
           (λ t, <[7 := take_while id_char (skip_char "=" (skip_char "v" t))]> caps)).
  intros t1. rewrite Hseq.
  apply (opt_lit_total "v" t1 caps _
           (λ t, <[7 := take_while id_char (skip_char "=" t)]> caps)).
  intros t2. rewrite Hseq.
  apply (opt_lit_total "=" t2 caps _ (λ t, <[7 := take_while id_char t]> caps)).
  apply Htail.
Qed.

(** The pattern, with the star over the line in front. *)
Lemma match_unfold url :
  match_anchored regExp url
  = star (atom_matches Dot) url
      (λ s1, exec announcer s1 ∅ (λ s2 c2, exec id_part s2 c2 (λ _ c, Some c))).
Proof. reflexivity. Qed.

Lemma match_groups url groups :
  match_anchored regExp url = Some groups →
  ∃ pre s2, url = pre +:+ s2 ∧ groups !! 7 = Some (id_after s2).
Proof.
  rewrite match_unfold. intros H.
  apply star_success in H as (pre1 & s1 & -> & H).
  apply exec_success in H as (pre2 & s2 & c2 & -> & H).
  rewrite id_part_exec in H. injection H as <-.
  exists (pre1 +:+ pre2), s2. split; [by rewrite append_assoc'|].
  apply lookup_insert_eq.
Qed.

Lemma id_char_spec c :
  id_char c = true ↔ c ≠ "#"%char ∧ c ≠ "&"%char ∧ c ≠ "?"%char.
Proof.
  unfold id_char. simpl.
  destruct (Ascii.eqb_spec c "#"), (Ascii.eqb_spec c "&"), (Ascii.eqb_spec c "?");
    simpl; split; try done; intros (? & ? & ?); done.
Qed.

Lemma id_after_inside s : ∃ a b, s = a +:+ id_after s +:+ b.
Proof.
  unfold id_after.
  destruct (skip_char_suffix "?" s) as [a1 H1].
  destruct (skip_char_suffix "v" (skip_char "?" s)) as [a2 H2].
  destruct (skip_char_suffix "=" (skip_char "v" (skip_char "?" s))) as [a3 H3].
  set (t := skip_char "=" (skip_char "v" (skip_char "?" s))) in *.
  exists (a1 +:+ a2 +:+ a3), (drop_while id_char t).
  rewrite <- (take_drop_while id_char t).
  rewrite !append_assoc'. congruence.
Qed.

End VideoIdFacts.

(** X18: [extractVideoId] never throws, and an id it returns has exactly
    11 characters, none of them [#], [&] or [?], and occurs in the URL. *)
Theorem extractVideoId_shape (url : string) :
  (∃ r, VideoId.extractVideoId url = Resolved r)
  ∧ (∀ id,
       VideoId.extractVideoId url = Resolved (Some id) →
       String.length id = 11
       ∧ Forall (λ c, c ≠ "#"%char ∧ c ≠ "&"%char ∧ c ≠ "?"%char) (chars id)
       ∧ ∃ pre post, url = pre +:+ id +:+ post).
Proof.
  unfold VideoId.extractVideoId.
  destruct (Regex.match_anchored VideoId.regExp url) as [groups|] eqn:Hm.
  - apply match_groups in Hm as (pre & s2 & -> & ->).
    split.
    + destruct (String.length _ =? 11); by eexists.
    + intros id. destruct (Nat.eqb_spec (String.length (UrlParts.id_after s2)) 11)
        as [Hlen|]; [|done].
      intros [= <-]. split_and!; [done | |].
      * unfold UrlParts.id_after.
        eapply Forall_impl; [apply take_while_all|].
        intros c Hc. by apply id_char_spec.
      * destruct (id_after_inside s2) as (a & b & Hs2).
        exists (pre +:+ a), b. rewrite Hs2 at 1. by rewrite append_assoc'.
  - split; [by eexists | done].
Qed.

Lemma extractVideoId_shape_witness :
  String.length "dQw4w9WgXcQ" = 11
  ∧ Forall (λ c, c ≠ "#"%char ∧ c ≠ "&"%char ∧ c ≠ "?"%char) (chars "dQw4w9WgXcQ")
  ∧ ∃ pre post,
      "https://www.youtube.com/watch?v=dQw4w9WgXcQ&t=42s"
      = pre +:+ "dQw4w9WgXcQ" +:+ post.
Proof.
  apply (proj2 (extractVideoId_shape
                  "https://www.youtube.com/watch?v=dQw4w9WgXcQ&t=42s")).
  reflexivity.
Defined.

Section AnnouncerFacts.
Import Regex UrlParts VideoId.

(** The announcer matches only where one of the five texts starts. *)
Lemma announcer_not_announced {R} t caps (k : string → Captures → option R) :
  announced t = false → exec announcer t caps k = None.
Proof.
  unfold announced, starts. rewrite !orb_false_iff.
  intros ((((H1 & H2) & H3) & H4) & H5).
  unfold announcer. cbn [exec]. rewrite !exec_literal.
  destruct (strip_prefix "watch?" t); [done|].
  destruct (strip_prefix "embed/" t); [done|].
  destruct (strip_prefix "v/" t); [done|].
  destruct (strip_prefix "youtu" t) as [[|c r]|];
    destruct (strip_prefix "/u/" t) as [[|c' r']|];
    cbv beta iota; cbn [atom_matches];
    rewrite ?exec_literal;
    repeat match goal with
      | H : _ && _ = false |- _ => apply andb_false_iff in H as [H|H]; rewrite ?H
      | |- context [strip_prefix ?w ?x] => destruct (strip_prefix w x)
      | |- context [if ?b then _ else _] => destruct b
      end; done.
Qed.

Lemma strip_prefix_elem w t t' x :
  strip_prefix w t = Some t' → x ∈ chars w ∨ x ∈ chars t' → x ∈ chars t.
Proof.
  intros H Hx. apply strip_prefix_Some in H as ->.
  rewrite chars_append. by apply elem_of_app.
Qed.

Lemma strip_prefix_includes w t t' :
  strip_prefix w t = Some t' → includes t w = true.
Proof.
  intros H. apply strip_prefix_Some in H as ->.
  apply includes_spec. by exists EmptyString, t'.
Qed.

(** Where no announcer can start, none is found. *)
Lemma free_not_announced t : announcer_free t → announced t = false.
Proof.
  intros [Hslash Hwatch]. unfold announced, starts.
  assert (Hs : ∀ w t', strip_prefix w t = Some t' →
             ("/"%char ∈ chars w ∨ "/"%char ∈ chars t') → False).
  { intros w t' H Hx. apply Hslash. by eapply strip_prefix_elem. }
  destruct (strip_prefix "watch?" t) as [t'|] eqn:E5.
  { apply strip_prefix_includes in E5. congruence. }
  destruct (strip_prefix "embed/" t) as [t'|] eqn:E4.
  { exfalso. apply (Hs _ _ E4). left. simpl. set_solver. }
  destruct (strip_prefix "v/" t) as [t'|] eqn:E2.
  { exfalso. apply (Hs _ _ E2). left. simpl. set_solver. }
  destruct (strip_prefix "/u/" t) as [t'|] eqn:E3.
  { exfalso. apply (Hs _ _ E3). left. simpl. set_solver. }
  destruct (strip_prefix "youtu" t) as [[|c r]|] eqn:E1; try done.
  destruct (strip_prefix "be/" r) as [r'|] eqn:E1'; [|by rewrite andb_false_r].
  exfalso. apply (Hs _ _ E1). right. simpl. right.
  eapply strip_prefix_elem; [exact E1'|]. left. simpl. set_solver.
Qed.

Lemma free_tail c r : announcer_free (String c r) → announcer_free r.
Proof.
  intros [Hslash Hwatch]. split.
  - intros H. apply Hslash. simpl. by right.
  - destruct (includes r "watch?") eqn:E; [|done].
    apply includes_spec in E as (pre & post & ->).
    assert (includes (String c (pre +:+ "watch?" +:+ post)) "watch?" = true)
      by (apply includes_spec; by exists (String c pre), post).
    congruence.
Qed.

(** After a slash, no announcer starts when none can start further on. *)
Lemma slash_not_announced X :
  announcer_free X → announced (String "/" X) = false.
Proof.
  intros [Hslash _]. unfold announced, starts. simpl.
  destruct X as [|c [|d r]]; simpl; try done.
  - by destruct (Ascii.eqb c "u").
  - destruct (Ascii.eqb_spec c "u"); [|done].
    destruct (Ascii.eqb_spec d "/") as [->|]; [|done].
    exfalso. apply Hslash. simpl. set_solver.
Qed.

(** The star over the line stops where the continuation never succeeds
    further on. *)
Lemma star_cons_fail {R} p c r (k : string → option R) :
  star p r k = None → star p (String c r) k = k (String c r).
Proof. intros H. simpl. rewrite H. by destruct (p c). Qed.

Lemma star_free X :
  announcer_free X → star (atom_matches Dot) X after_line = None.
Proof.
  apply (star_fail _ _ announcer_free).
  - apply free_tail.
  - intros t Ht. by apply announcer_not_announced, free_not_announced.
Qed.

Lemma take_while_id_rest id rest :
  Forall (λ c, id_char c = true) (chars id) →
  rest = EmptyString ∨ (∃ c r, rest = String c r ∧ id_char c = false) →
  take_while id_char (id +:+ rest) = id.
Proof.
  intros Hid [->|(c & r & -> & Hc)].
  - by apply take_while_id.
  - by apply take_while_stop.
Qed.

End AnnouncerFacts.

Section RoundTrip.
Import Regex UrlParts VideoId.

Lemma extract_from_groups url groups id :
  star (atom_matches Dot) url after_line = Some groups →
  groups !! 7 = Some id → String.length id = 11 →
  extractVideoId url = Resolved (Some id).
Proof.
  intros Hstar Hid Hlen. unfold extractVideoId.
  rewrite match_unfold. fold after_line. rewrite Hstar, Hid.
  by rewrite Hlen.
Qed.

Lemma announcer_watch {R} X caps (k : string → Captures → option R) :
  exec announcer ("watch?" +:+ X) caps k
  = k X (<[1 := consumed ("watch?" +:+ X) X]>
           (<[6 := consumed ("watch?" +:+ X) X]> caps)).
Proof.
  unfold announcer. cbn [exec]. rewrite !exec_literal. reflexivity.
Qed.

Lemma announcer_youtu_be {R} X caps (k : string → Captures → option R) :
  exec announcer ("youtu.be/" +:+ X) caps k
  = k X (<[1 := consumed ("youtu.be/" +:+ X) X]>
           (<[2 := consumed ("youtu.be/" +:+ X) X]> caps)).
Proof.
  change ("youtu.be/" +:+ X)
    with (String "y" (String "o" (String "u" (String "t" (String "u"
            (String "." (String "b" (String "e" (String "/" X))))))))).
  unfold announcer. cbn [exec]. rewrite !exec_literal. simpl.
  by destruct (k X _).
Qed.

Lemma after_line_watch X :
  ∃ caps, after_line ("watch?" +:+ X) = Some (<[7 := id_after X]> caps).
Proof.
  unfold after_line. rewrite announcer_watch. eexists. apply id_part_exec.
Qed.

Lemma after_line_youtu_be X :
  ∃ caps, after_line ("youtu.be/" +:+ X) = Some (<[7 := id_after X]> caps).
Proof.
  unfold after_line. rewrite announcer_youtu_be. eexists. apply id_part_exec.
Qed.

Lemma star_watch X :
  announcer_free X →
  star (atom_matches Dot) ("watch?v=" +:+ X) after_line
    = after_line ("watch?v=" +:+ X).
Proof.
  intros HX. pose proof (star_free X HX) as Hstar.
  change ("watch?v=" +:+ X)
    with (String "w" (String "a" (String "t" (String "c" (String "h"
            (String "?" (String "v" (String "=" X)))))))).
  repeat (rewrite star_cons_fail;
          [first [ apply announcer_not_announced; reflexivity | done ] |]).
  all: try exact Hstar.
  all: rewrite star_cons_fail;
         [by apply announcer_not_announced | try exact Hstar].
Qed.

End RoundTrip.

Section RoundTripUrls.
Import Regex UrlParts VideoId.

Lemma star_youtu_be X :
  announcer_free X →
  star (atom_matches Dot) ("youtu.be/" +:+ X) after_line
    = after_line ("youtu.be/" +:+ X).
Proof.
  intros HX. pose proof (star_free X HX) as Hstar.
  change ("youtu.be/" +:+ X)
    with (String "y" (String "o" (String "u" (String "t" (String "u"
            (String "." (String "b" (String "e" (String "/" X))))))))).
  repeat (rewrite star_cons_fail;
          [first [ apply announcer_not_announced; reflexivity
                 | apply announcer_not_announced; by apply slash_not_announced
                 | done ] |]).
  all: try exact Hstar.
  all: rewrite star_cons_fail;
         [first [ by apply announcer_not_announced
                | apply announcer_not_announced; by apply slash_not_announced ]
         | try exact Hstar].
Qed.

Lemma on_the_line pre :
  Forall (λ c, is_line_terminator c = false) (chars pre) →
  Forall (λ c, atom_matches Dot c = true) (chars pre).
Proof.
  intros H. eapply Forall_impl; [exact H|].
  intros c Hc. simpl. by rewrite Hc.
Qed.

End RoundTripUrls.

(** X19: a URL with no slash that does not contain "watch?" has no id:
    [extractVideoId] returns null. *)
Theorem extractVideoId_needs_announcer (url : string) :
  UrlParts.announcer_free url →
  VideoId.extractVideoId url = Resolved None.
Proof.
  intros Hfree. unfold VideoId.extractVideoId.
  rewrite match_unfold.
  change (λ s1, Regex.exec VideoId.announcer s1 ∅
                  (λ s2 c2, Regex.exec VideoId.id_part s2 c2 (λ _ c, Some c)))
    with UrlParts.after_line.
  by rewrite star_free.
Qed.

Lemma extractVideoId_needs_announcer_witness :
  VideoId.extractVideoId "dQw4w9WgXcQ" = Resolved None.
Proof.
  apply extractVideoId_needs_announcer. split; [|reflexivity].
  simpl. intros H.
  repeat (apply elem_of_cons in H as [H|H]; [discriminate H|]).
  by apply elem_of_nil in H.
Defined.

(** X20: a watch URL gives its id back: for any text on one line, followed
    by "watch?v=", an id of 11 characters other than [#], [&] and [?], and
    then nothing or a rest that starts with [#], [&] or [?], the id is
    returned, provided no announcer can start in the id or the rest. *)
Theorem extractVideoId_watch_url (pre id rest : string) :
  Forall (λ c, Regex.is_line_terminator c = false) (chars pre) →
  String.length id = 11 →
  Forall (λ c, UrlParts.id_char c = true) (chars id) →
  rest = EmptyString ∨ (∃ c r, rest = String c r ∧ UrlParts.id_char c = false) →
  UrlParts.announcer_free (id +:+ rest) →
  VideoId.extractVideoId (pre +:+ "watch?v=" +:+ id +:+ rest)
    = Resolved (Some id).
Proof.
  intros Hpre Hlen Hid Hrest Hfree.
  destruct (after_line_watch ("v=" +:+ id +:+ rest)) as [caps Hafter].
  apply (extract_from_groups _ (<[7 := id]> caps)); [| apply lookup_insert_eq | done].
  apply star_skip; [by apply on_the_line|].
  rewrite star_watch by done.
  change ("watch?v=" +:+ id +:+ rest) with ("watch?" +:+ "v=" +:+ id +:+ rest).
  rewrite Hafter. do 2 f_equal.
  change (UrlParts.id_after ("v=" +:+ id +:+ rest))
    with (UrlParts.take_while UrlParts.id_char (id +:+ rest)).
  by apply take_while_id_rest.
Qed.

Lemma extractVideoId_watch_url_witness :
  VideoId.extractVideoId
    ("https://www.youtube.com/" +:+ "watch?v=" +:+ "dQw4w9WgXcQ" +:+ "&t=42s")
  = Resolved (Some "dQw4w9WgXcQ").
Proof.
  apply extractVideoId_watch_url.
  - simpl. repeat constructor.
  - reflexivity.
  - simpl. repeat constructor.
  - right. by exists "&"%char, "t=42s".
  - split; [|reflexivity]. simpl. intros H.
    repeat (apply elem_of_cons in H as [H|H]; [discriminate H|]).
    by apply elem_of_nil in H.
Defined.

(** X21: a short link gives its id back when the id does not start with
    [v] or [=]: for any text on one line, followed by "youtu.be/", such an
    id of 11 characters and nothing or a rest that starts with [#], [&] or
    [?], the id is returned, provided no announcer can start in the id or
    the rest. *)
Theorem extractVideoId_short_url (pre id rest : string) (c0 : ascii) (id' : string) :
  Forall (λ c, Regex.is_line_terminator c = false) (chars pre) →
  id = String c0 id' → c0 ≠ "v"%char → c0 ≠ "="%char →
  String.length id = 11 →
  Forall (λ c, UrlParts.id_char c = true) (chars id) →
  rest = EmptyString ∨ (∃ c r, rest = String c r ∧ UrlParts.id_char c = false) →
  UrlParts.announcer_free (id +:+ rest) →
  VideoId.extractVideoId (pre +:+ "youtu.be/" +:+ id +:+ rest)
    = Resolved (Some id).
Proof.
  intros Hpre Hshape Hv Heq Hlen Hid Hrest Hfree.
  destruct (after_line_youtu_be (id +:+ rest)) as [caps Hafter].
  apply (extract_from_groups _ (<[7 := id]> caps)); [| apply lookup_insert_eq | done].
  apply star_skip; [by apply on_the_line|].
  rewrite star_youtu_be by done.
  rewrite Hafter. do 2 f_equal.
  rewrite <- (take_while_id_rest id rest Hid Hrest) at 2.
  unfold UrlParts.id_after. f_equal.
  assert (Hq : c0 ≠ "?"%char).
  { inversion Hid as [|? ? Hc _]; subst; [done|].
    injection H as <- _. by apply id_char_spec in Hc as (_ & _ & ?). }
  subst id. simpl.
  destruct (Ascii.eqb_spec c0 "?"); [done|]. simpl.
  destruct (Ascii.eqb_spec c0 "v"); [done|]. simpl.
  by destruct (Ascii.eqb_spec c0 "=").
Qed.

Lemma extractVideoId_short_url_witness :
  VideoId.extractVideoId
    ("https://" +:+ "youtu.be/" +:+ "dQw4w9WgXcQ" +:+ "?t=42")
  = Resolved (Some "dQw4w9WgXcQ").
Proof.
  apply (extractVideoId_short_url "https://" "dQw4w9WgXcQ" "?t=42" "d" "Qw4w9WgXcQ").
  - simpl. repeat constructor.
  - reflexivity.
  - done.
  - done.
  - reflexivity.
  - simpl. repeat constructor.
  - right. by exists "?"%char, "t=42".
  - split; [|reflexivity]. simpl. intros H.
    repeat (apply elem_of_cons in H as [H|H]; [discriminate H|]).
    by apply elem_of_nil in H.
Defined.

Section ShortUrlEdge.
Import Regex UrlParts VideoId.

Lemma extract_wrong_length url groups x :
  star (atom_matches Dot) url after_line = Some groups →
  groups !! 7 = Some x → String.length x ≠ 11 →
  extractVideoId url = Resolved None.
Proof.
  intros Hstar Hx Hlen. unfold extractVideoId.
  rewrite match_unfold. fold after_line. rewrite Hstar, Hx.
  by destruct (Nat.eqb_spec (String.length x) 11).
Qed.

Lemma take_while_length_le p s : String.length (take_while p s) ≤ String.length s.
Proof.
  induction s as [|c r IH]; simpl; [done|].
  destruct (p c); simpl; lia.
Qed.

End ShortUrlEdge.

(** X22: a short link whose id starts with [v] is refused: the optional
    [v] of the pattern takes the first character of the id, at most ten
    characters are left for group 7, and [extractVideoId] returns null. *)
Theorem extractVideoId_short_url_leading_v (pre id' rest : string) :
  Forall (λ c, Regex.is_line_terminator c = false) (chars pre) →
  String.length id' = 10 →
  Forall (λ c, UrlParts.id_char c = true) (chars id') →
  rest = EmptyString ∨ (∃ c r, rest = String c r ∧ UrlParts.id_char c = false) →
  UrlParts.announcer_free (String "v" id' +:+ rest) →
  VideoId.extractVideoId (pre +:+ "youtu.be/" +:+ String "v" id' +:+ rest)
    = Resolved None.
Proof.
  intros Hpre Hlen Hid Hrest Hfree.
  destruct (after_line_youtu_be (String "v" id' +:+ rest)) as [caps Hafter].
  apply (extract_wrong_length _
           (<[7 := UrlParts.id_after (String "v" id' +:+ rest)]> caps)
           (UrlParts.id_after (String "v" id' +:+ rest))).
  - apply star_skip; [by apply on_the_line|].
    by rewrite star_youtu_be.
  - apply lookup_insert_eq.
  - change (UrlParts.id_after (String "v" id' +:+ rest))
      with (UrlParts.take_while UrlParts.id_char
              (UrlParts.skip_char "=" (id' +:+ rest))).
    destruct id' as [|c r]; [done|].
    change (String c r +:+ rest) with (String c (r +:+ rest)).
    simpl UrlParts.skip_char.
    inversion Hid as [|? ? Hc Hr]; subst.
    destruct (Ascii.eqb c "=").
    + rewrite (take_while_id_rest r rest Hr Hrest). simpl in Hlen. lia.
    + rewrite <- (take_while_id_rest (String c r) rest Hid Hrest) in Hlen.
      change (String c r +:+ rest) with (String c (r +:+ rest)) in Hlen. lia.
Qed.

Lemma extractVideoId_short_url_leading_v_witness :
  VideoId.extractVideoId
    ("https://" +:+ "youtu.be/" +:+ String "v" "Qw4w9WgXcQ" +:+ "")
  = Resolved None.
Proof.
  apply extractVideoId_short_url_leading_v.
  - simpl. repeat constructor.
  - reflexivity.
  - simpl. repeat constructor.
  - by left.
  - split; [|reflexivity]. simpl. intros H.
    repeat (apply elem_of_cons in H as [H|H]; [discriminate H|]).
    by apply elem_of_nil in H.
Defined.

(** ** model.js: the property read of the tokenizer *)

Section PlainObjectFacts.
Variable D : Dictionary.

Lemma plain_push_words_spec acc ws :
  PlainObject.push_words D acc ws = acc ++ map (PlainObject.token D) ws.
Proof.
  revert acc; induction ws as [|w ws IH]; intros acc; simpl.
  - by rewrite app_nil_r.
  - by rewrite IH, <- app_assoc.
Qed.

Lemma plain_pad_loop_spec fuel arr :
  ENCODING_LENGTH ≤ length arr + fuel →
  PlainObject.pad_loop D fuel arr
    = arr ++ replicate (ENCODING_LENGTH - length arr) (PlainObject.Num D.(PAD)).
Proof.
  unfold ENCODING_LENGTH.
  revert arr; induction fuel as [|fuel IH]; intros arr H; cbn [PlainObject.pad_loop].
  - replace (21 - length arr) with 0 by lia. by rewrite app_nil_r.
  - unfold ENCODING_LENGTH. destruct (Nat.ltb_spec (length arr) 21) as [Hlt|Hge].
    + rewrite IH by (rewrite length_app; simpl; lia).
      rewrite length_app. simpl length.
      replace (21 - length arr) with (S (21 - (length arr + 1))) by lia.
      by rewrite <- app_assoc.
    + replace (21 - length arr) with 0 by lia. by rewrite app_nil_r.
Qed.

Lemma plain_tokenize_spec ws :
  PlainObject.tokenize D ws
  = PlainObject.Num D.(START)
    :: map (PlainObject.token D) ws
       ++ replicate (20 - length ws) (PlainObject.Num D.(PAD)).
Proof.
  unfold PlainObject.tokenize. rewrite plain_push_words_spec, plain_pad_loop_spec.
  - simpl. by rewrite length_map.
  - simpl. unfold ENCODING_LENGTH. lia.
Qed.

(** A word that is a key of the table, or names no inherited property, is
    read as from a finite map. *)
Lemma plain_token_agrees w :
  w ∉ PlainObject.OBJECT_PROTOTYPE →
  PlainObject.token D w = PlainObject.Num (token D w).
Proof.
  intros Hw. unfold PlainObject.token, PlainObject.read, token.
  destruct (LOOKUP D !! w); [done|].
  by rewrite bool_decide_eq_false_2.
Qed.

Lemma plain_token_inherited w :
  D.(LOOKUP) !! w = None → w ∈ PlainObject.OBJECT_PROTOTYPE →
  PlainObject.token D w = PlainObject.Inherited w.
Proof.
  intros Hnone Hw. unfold PlainObject.token, PlainObject.read.
  by rewrite Hnone, bool_decide_eq_true_2.
Qed.

End PlainObjectFacts.

Section LowerCaseWords.

Lemma normalized_char_not_upper c :
  in_range 65 90 (blank_char (lower_char c)) = false.
Proof. destruct c as [[] [] [] [] [] [] [] []]; by vm_compute. Qed.

Lemma split_chars sep s w c :
  w ∈ split sep s → c ∈ chars w → c ∈ chars s.
Proof.
  revert w. induction s as [|d r IH]; intros w Hw Hc; simpl in *.
  - apply list_elem_of_singleton in Hw as ->. done.
  - destruct (Ascii.eqb d sep).
    + apply elem_of_cons in Hw as [->|Hw]; [by apply elem_of_nil in Hc|].
      right. by eapply IH.
    + pose proof (split_nonempty sep r) as Hne.
      destruct (split sep r) as [|w0 ws]; [done|].
      apply elem_of_cons in Hw as [->|Hw].
      * simpl in Hc. apply elem_of_cons in Hc as [->|Hc]; [by left|].
        right. apply (IH w0); [by left | done].
      * right. apply (IH w); [by right | done].
Qed.

(** The words handed to [tokenize] have no capital letter. *)
Lemma first_words_lower text w c :
  w ∈ first_words text → c ∈ chars w → in_range 65 90 c = false.
Proof.
  intros Hw Hc. unfold first_words in Hw.
  apply elem_of_take in Hw as (i & Hw & _).
  apply list_elem_of_lookup_2 in Hw. unfold words in Hw.
  pose proof (split_chars _ _ _ _ Hw Hc) as Hin.
  unfold normalize, replace_non_word, toLowerCase in Hin.
  rewrite !chars_map_chars, map_map in Hin.
  apply list_elem_of_fmap in Hin as (c0 & -> & _).
  apply normalized_char_not_upper.
Qed.

(** Of the property names of [Object.prototype], two have no capital
    letter. *)
Lemma inherited_lower w :
  w ∈ PlainObject.OBJECT_PROTOTYPE →
  (∀ c, c ∈ chars w → in_range 65 90 c = false) →
  w = "constructor" ∨ w = "__proto__".
Proof.
  intros Hw Hlow. unfold PlainObject.OBJECT_PROTOTYPE in Hw.
  assert (Hcap : ∀ c, in_range 65 90 c = true → c ∈ chars w → False).
  { intros c Hc Hin. apply Hlow in Hin. congruence. }
  repeat (apply elem_of_cons in Hw as [->|Hw]);
    try (by left); try (by right); try (by apply elem_of_nil in Hw);
    exfalso; simpl in Hcap.
  - apply (Hcap "O"%char); [done | repeat constructor].
  - apply (Hcap "P"%char); [done | repeat constructor].
  - apply (Hcap "I"%char); [done | repeat constructor].
  - apply (Hcap "L"%char); [done | repeat constructor].
  - apply (Hcap "S"%char); [done | repeat constructor].
  - apply (Hcap "O"%char); [done | repeat constructor].
  - apply (Hcap "G"%char); [done | repeat constructor].
  - apply (Hcap "S"%char); [done | repeat constructor].
  - apply (Hcap "G"%char); [done | repeat constructor].
  - apply (Hcap "S"%char); [done | repeat constructor].
Qed.

End LowerCaseWords.

(** C2, as the code runs: the word "constructor" (and likewise "__proto__")
    survives normalization, is no key of the table, and is read from
    [Object.prototype]: the second entry of the row is that inherited value,
    which is neither the id of a word nor UNKNOWN nor a number.  The row has
    21 entries for every text: START, one entry for each of the first (at
    most 20) words, then PAD; words after the 20th are ignored.  For every
    text whose first 20 words include neither of these two words, the
    entry of a word is its id or UNKNOWN, and the row is all numbers. *)
Theorem C2_inherited_word_is_not_a_token (D : Dictionary) :
  first_words "constructor" = ["constructor"]
  ∧ first_words "__proto__" = ["__proto__"]
  ∧ (D.(LOOKUP) !! "constructor" = None →
       PlainObject.encode D "constructor"
         = PlainObject.Num D.(START) :: PlainObject.Inherited "constructor"
             :: replicate 19 (PlainObject.Num D.(PAD)))
  ∧ (D.(LOOKUP) !! "__proto__" = None →
       PlainObject.encode D "__proto__"
         = PlainObject.Num D.(START) :: PlainObject.Inherited "__proto__"
             :: replicate 19 (PlainObject.Num D.(PAD)))
  ∧ PlainObject.encode Examples.dictionary "I hate the constructor"
      = [ PlainObject.Num 1; PlainObject.Num 3; PlainObject.Num 4;
          PlainObject.Num 2; PlainObject.Inherited "constructor" ]
        ++ replicate 16 (PlainObject.Num 0)
  ∧ forallb PlainObject.is_number
      (PlainObject.encode Examples.dictionary "I hate the constructor") = false
  ∧ (∀ text, length (PlainObject.encode D text) = 21)
  ∧ (∀ text,
       "constructor" ∉ first_words text → "__proto__" ∉ first_words text →
       PlainObject.encode D text = map PlainObject.Num (encode D text)
       ∧ forallb PlainObject.is_number (PlainObject.encode D text) = true)
  ∧ (∀ text,
       PlainObject.encode D text
       = PlainObject.Num D.(START)
           :: map (PlainObject.token D) (take 20 (words text))
           ++ replicate (20 - length (take 20 (words text)))
                (PlainObject.Num D.(PAD)))
  ∧ (∀ text,
       "constructor" ∉ first_words text → "__proto__" ∉ first_words text →
       PlainObject.encode D text
       = map PlainObject.Num
           (D.(START)
              :: map (λ w, default D.(UNKNOWN) (D.(LOOKUP) !! w))
                   (take 20 (words text))
              ++ replicate (20 - length (take 20 (words text))) D.(PAD)))
  ∧ (∀ text text',
       take 20 (words text') = take 20 (words text) →
       PlainObject.encode D text' = PlainObject.encode D text)
  ∧ words "I hate the constructor" = ["i"; "hate"; "the"; "constructor"]
  ∧ PlainObject.encode Examples.dictionary
      "a b c d e f g h j k l m n o p q r s t u hate"
    = PlainObject.Num 1 :: replicate 20 (PlainObject.Num 2).
Proof.
  assert (Hagree : ∀ text,
    "constructor" ∉ first_words text → "__proto__" ∉ first_words text →
    PlainObject.encode D text = map PlainObject.Num (encode D text)).
  { intros text Hc Hp. unfold PlainObject.encode, encode.
    rewrite plain_tokenize_spec, tokenize_spec. simpl.
    rewrite map_app, map_map, fmap_replicate. do 2 f_equal.
    apply map_ext_in. intros w Hw. apply list_elem_of_In in Hw.
    apply plain_token_agrees. intros Hin.
    destruct (inherited_lower w Hin) as [->| ->]; [|done|done].
    intros c Hcw. by eapply first_words_lower. }
  split_and!.
  - reflexivity.
  - reflexivity.
  - intros Hnone. unfold PlainObject.encode.
    change (first_words "constructor") with ["constructor"].
    rewrite plain_tokenize_spec. simpl.
    rewrite plain_token_inherited; [done | done | repeat constructor].
  - intros Hnone. unfold PlainObject.encode.
    change (first_words "__proto__") with ["__proto__"].
    rewrite plain_tokenize_spec. simpl.
    rewrite plain_token_inherited; [done | done | repeat constructor].
  - by vm_compute.
  - by vm_compute.
  - intros text. unfold PlainObject.encode. rewrite plain_tokenize_spec.
    pose proof (first_words_length text). simpl.
    rewrite length_app, length_map, length_replicate. lia.
  - intros text Hc Hp. split; [by apply Hagree|].
    rewrite Hagree by done. apply forallb_forall. intros v Hv.
    apply in_map_iff in Hv as (z & <- & _). done.
  - intros text. unfold PlainObject.encode. by rewrite plain_tokenize_spec.
  - intros text Hc Hp. rewrite Hagree by done. f_equal.
    unfold encode. by rewrite tokenize_spec.
  - intros text text' Heq. unfold PlainObject.encode, first_words.
    by rewrite Heq.
  - by vm_compute.
  - by vm_compute.
Qed.
